(** * mav_trajectory_generation: the [Polynomial] class of polynomial.h

    A shallow embedding of [mav_trajectory_generation::Polynomial]
    (include/mav_trajectory_generation/polynomial.h) and the properties its
    specification states about it.

    Conventions of the embedding.
    - A [double] is a real number ([R]): rounding, infinities and NaN are not
      modelled, every statement is exact over the reals.
    - An [int] is an integer ([Z]).  On the inputs the statements range over
      (orders up to [kMaxN], indices up to the order) no [int] expression of
      the class leaves the 32-bit range.
    - An [Eigen::VectorXd] is a [list R], an [Eigen::MatrixXd] a list of rows,
      a [std::complex<double>] a pair (real part, imaginary part).
    - A failed glog [CHECK_*] aborts the process; so does, in this model, any
      Eigen access that would read or write an entry outside the storage of a
      vector or matrix.  Both are the outcome [Fatal].  An Eigen expression
      that touches no entry (a block of zero columns) is defined.
    - A member function is a computation over the process state: the static
      table [base_coefficients_] and the object [this]. *)

From Stdlib Require Import Reals ZArith List Bool Lia Lra Psatz.
Import ListNotations.

Set Implicit Arguments.

(** ** Outcomes and the monad of member functions *)

Inductive outcome (A : Type) : Type :=
| Ok (a : A)
| Fatal.

Arguments Ok {A} a.
Arguments Fatal {A}.

Definition VectorXd := list R.
Definition MatrixXd := list (list R).
Definition Complex := (R * R)%type.
Definition VectorXcd := list Complex.

Definition real (z : Complex) : R := fst z.
Definition imag (z : Complex) : R := snd z.

(** [int N_; Eigen::VectorXd coefficients_;] *)
Record Polynomial : Type := mkPolynomial {
  N_ : Z;
  coefficients_ : VectorXd
}.

(** The state a member function runs in: the class-wide static table and the
    object the function is called on. *)
Record State : Type := mkState {
  base_coefficients_ : MatrixXd;
  this : Polynomial
}.

Definition M (A : Type) : Type := State -> outcome (A * State).

Definition ret {A} (a : A) : M A := fun s => Ok (a, s).

Definition bind {A B} (m : M A) (k : A -> M B) : M B :=
  fun s => match m s with
           | Ok (a, s') => k a s'
           | Fatal => Fatal
           end.

Definition abort {A} : M A := fun _ => Fatal.

Definition get_this : M Polynomial := fun s => Ok (this s, s).
Definition get_base_coefficients : M MatrixXd :=
  fun s => Ok (base_coefficients_ s, s).
Definition set_this (p : Polynomial) : M unit :=
  fun s => Ok (tt, mkState (base_coefficients_ s) p).

(** An Eigen access: defined, or outside the storage. *)
Definition eigen {A} (o : option A) : M A :=
  match o with
  | Some a => ret a
  | None => abort
  end.

(** glog's [CHECK_EQ], [CHECK_LE], [CHECK_LT], [CHECK_GE]. *)
Definition CHECK (b : bool) : M unit := if b then ret tt else abort.

Declare Scope monad_scope.
Delimit Scope monad_scope with monad.
Notation "x <- m ;; k" := (bind m (fun x => k))
  (at level 61, m at next level, right associativity) : monad_scope.
Notation "m ;; k" := (bind m (fun _ => k))
  (at level 61, right associativity) : monad_scope.

(** ** Comparisons of doubles *)

Definition Rltb (x y : R) : bool := if Rlt_dec x y then true else false.
Definition Rleb (x y : R) : bool := if Rle_dec x y then true else false.
Definition Reqb (x y : R) : bool := if Req_dec_T x y then true else false.

(** ** Eigen vectors and matrices *)

Definition size (v : VectorXd) : Z := Z.of_nat (length v).

(** [v[i]] *)
Definition coeff (v : VectorXd) (i : Z) : option R :=
  if (i <? 0)%Z then None else nth_error v (Z.to_nat i).

(** [m(r, c)] *)
Definition entry (m : MatrixXd) (r c : Z) : option R :=
  if (r <? 0)%Z then None
  else match nth_error m (Z.to_nat r) with
       | Some row => coeff row c
       | None => None
       end.

Fixpoint update (v : VectorXd) (i : nat) (x : R) : option VectorXd :=
  match v, i with
  | [], _ => None
  | _ :: v', O => Some (x :: v')
  | y :: v', S i' => option_map (cons y) (update v' i' x)
  end.

(** [v[i] = x] *)
Definition set_coeff (v : VectorXd) (i : Z) (x : R) : option VectorXd :=
  if (i <? 0)%Z then None else update v (Z.to_nat i) x.

(** [Eigen::VectorXd v(n); v.setZero();] *)
Definition zero_vector (n : Z) : option VectorXd :=
  if (n <? 0)%Z then None else Some (repeat 0%R (Z.to_nat n)).

Fixpoint Zseq (start : Z) (len : nat) : list Z :=
  match len with
  | O => []
  | S len' => start :: Zseq (start + 1) len'
  end.

Fixpoint traverse {A B} (f : A -> option B) (l : list A) : option (list B) :=
  match l with
  | [] => Some []
  | a :: l' => match f a, traverse f l' with
               | Some b, Some bs => Some (b :: bs)
               | _, _ => None
               end
  end.

(** [m.block(r, c, 1, n)], copied into a vector: entries (r, c) .. (r, c+n-1). *)
Definition block_row (m : MatrixXd) (r c n : Z) : option VectorXd :=
  if (n <? 0)%Z then None else traverse (entry m r) (Zseq c (Z.to_nat n)).

(** [v.tail(n)] *)
Definition tail (v : VectorXd) (n : Z) : option VectorXd :=
  if ((n <? 0) || (size v <? n))%Z then None
  else Some (skipn (length v - Z.to_nat n) v).

(** [a.cwiseProduct(b)] *)
Fixpoint cwiseProduct (a b : VectorXd) : option VectorXd :=
  match a, b with
  | [], [] => Some []
  | x :: a', y :: b' => option_map (cons (x * y)%R) (cwiseProduct a' b')
  | _, _ => None
  end.

(** [v.head(n) = src] *)
Definition assign_head (v : VectorXd) (n : Z) (src : VectorXd) : option VectorXd :=
  if ((n <? 0) || (size v <? n) || negb (size src =? n))%Z then None
  else Some (src ++ skipn (Z.to_nat n) v).

(** [a == b] on vectors.  The entries are compared as real numbers: that a
    NaN entry compares unequal to itself is, like NaN elsewhere, not
    modelled. *)
Fixpoint vector_eq (a b : VectorXd) : option bool :=
  match a, b with
  | [], [] => Some true
  | x :: a', y :: b' => option_map (andb (Reqb x y)) (vector_eq a' b')
  | _, _ => None
  end.

(** ** The basis table *)

(** [static constexpr int kMaxN = 12;] *)
Definition kMaxN : Z := 12.

(** Differentiating the monomial [m * t^e] once. *)
Definition differentiate (me : nat * nat) : nat * nat :=
  (fst me * snd me, Nat.pred (snd me)).

(** Modelled from the spec: the body of [computeBaseCoefficients] is not in
    polynomial.h, which only declares it.  Entry (d, j) is "the multiplier
    produced when differentiating t^j exactly d times evaluated at t=1". *)
Definition basis_multiplier (d j : nat) : nat :=
  fst (Nat.iter d differentiate (1, j)).

Definition computeBaseCoefficients (N : Z) : MatrixXd :=
  map (fun d => map (fun j => INR (basis_multiplier d j)) (seq 0 (Z.to_nat N)))
      (seq 0 (Z.to_nat N)).

(** Modelled from the spec: the initialiser of the static member
    [Polynomial::base_coefficients_] is not in polynomial.h; the table is
    "built once" by [computeBaseCoefficients] "up to the fixed maximum
    order". *)
Definition initial_base_coefficients : MatrixXd := computeBaseCoefficients kMaxN.

Section PolynomialClass.

Local Open Scope monad_scope.
Local Open Scope Z_scope.

(** The root solver of rpoly.h, [findRootsJenkinsTraub]: an external
    collaborator, any function from real coefficients to complex roots. *)
Variable findRootsJenkinsTraub : VectorXd -> VectorXcd.

(** The tolerance below which the imaginary part of a root counts as zero. *)
Variable kTolerance : R.

(** ** Construction *)

(** [Polynomial(int N) : N_(N), coefficients_(N) { coefficients_.setZero(); }] *)
Definition Polynomial_N (N : Z) : outcome Polynomial :=
  match zero_vector N with
  | Some zeros => Ok (mkPolynomial N zeros)
  | None => Fatal
  end.

(** [Polynomial(int N, const Eigen::VectorXd& coeffs)] *)
Definition Polynomial_N_coeffs (N : Z) (coeffs : VectorXd) : outcome Polynomial :=
  if N =? size coeffs then Ok (mkPolynomial N coeffs) else Fatal.

(** ** Member functions of polynomial.h *)

(** [bool operator==(const Polynomial& rhs) const] *)
Definition operator_eq (rhs : Polynomial) : M bool :=
  p <- get_this ;;
  eigen (vector_eq (coefficients_ p) (coefficients_ rhs)).

(** [bool operator!=(const Polynomial& rhs) const] *)
Definition operator_neq (rhs : Polynomial) : M bool :=
  b <- operator_eq rhs ;;
  ret (negb b).

(** [int N() const] *)
Definition N : M Z :=
  p <- get_this ;;
  ret (N_ p).

(** [void setCoefficients(const Eigen::VectorXd& coeffs)] *)
Definition setCoefficients (coeffs : VectorXd) : M unit :=
  p <- get_this ;;
  CHECK (N_ p =? size coeffs) ;;
  set_this (mkPolynomial (N_ p) coeffs).

(** [Eigen::VectorXd getCoefficients(int derivative = 0) const] *)
Definition getCoefficients (derivative : Z) : M VectorXd :=
  p <- get_this ;;
  B <- get_base_coefficients ;;
  CHECK (derivative <=? N_ p) ;;
  if derivative =? 0 then ret (coefficients_ p)
  else
    result <- eigen (zero_vector (N_ p)) ;;
    tl <- eigen (tail (coefficients_ p) (N_ p - derivative)) ;;
    blk <- eigen (block_row B derivative derivative (N_ p - derivative)) ;;
    prod <- eigen (cwiseProduct tl blk) ;;
    eigen (assign_head result (N_ p - derivative) prod).

(** The inner loop shared by both forms of [evaluate]:
    [for (int j = tmp - 1; j >= derivative; --j)
       { acc *= t; acc += row[j] * coefficients_[j]; }],
    run for [n] iterations from index [j]. *)
Fixpoint horner (row c : VectorXd) (t : R) (n : nat) (j : Z) (acc : R)
  : option R :=
  match n with
  | O => Some acc
  | S n' =>
      match coeff row j, coeff c j with
      | Some rj, Some cj => horner row c t n' (j - 1) (acc * t + rj * cj)%R
      | _, _ => None
      end
  end.

(** The body of both forms of [evaluate] for one derivative [i]: the row of
    the table, the seed of the accumulator and the inner loop. *)
Definition evaluate_one (B : MatrixXd) (p : Polynomial) (t : R) (i : Z)
  : option R :=
  let tmp := N_ p - 1 in
  match block_row B i 0 (N_ p) with
  | None => None
  | Some row =>
      match coeff row tmp, coeff (coefficients_ p) tmp with
      | Some r, Some c =>
          horner row (coefficients_ p) t (Z.to_nat (tmp - i)) (tmp - 1) (r * c)%R
      | _, _ => None
      end
  end.

(** The outer loop of the vector form,
    [for (int i = 0; i < max_deg; i++) { ...; ( *result)[i] = acc; }],
    run for [n] iterations from index [i]. *)
Fixpoint evaluate_loop (B : MatrixXd) (p : Polynomial) (t : R) (n : nat) (i : Z)
    (result : VectorXd) : option VectorXd :=
  match n with
  | O => Some result
  | S n' =>
      match evaluate_one B p t i with
      | None => None
      | Some acc =>
          match set_coeff result i acc with
          | None => None
          | Some result' => evaluate_loop B p t n' (i + 1) result'
          end
      end
  end.

(** [void evaluate(double t, Eigen::VectorXd* result) const]; the vector the
    caller passes is the argument, the vector it holds afterwards the value. *)
Definition evaluate_vector (t : R) (result : VectorXd) : M VectorXd :=
  p <- get_this ;;
  B <- get_base_coefficients ;;
  CHECK (size result <=? N_ p) ;;
  let max_deg := size result in
  eigen (evaluate_loop B p t (Z.to_nat max_deg) 0 result).

(** [double evaluate(double t, int derivative) const] *)
Definition evaluate (t : R) (derivative : Z) : M R :=
  p <- get_this ;;
  B <- get_base_coefficients ;;
  if derivative >=? N_ p then ret 0%R
  else eigen (evaluate_one B p t derivative).

(** [Eigen::VectorXcd computeRoots() const] *)
Definition computeRoots : M VectorXcd :=
  p <- get_this ;;
  ret (findRootsJenkinsTraub (coefficients_ p)).

(** [std::numeric_limits<double>::epsilon()], 2^-52. *)
Definition epsilon : R := (/ 2 ^ 52)%R.

(** The loop of [baseCoeffsWithTime],
    [for (int j = derivative + 1; j < N; j++)
       { ( *coeffs)[j] = base_coefficients_(derivative, j) * t_power;
         t_power = t_power * t; }],
    run for [n] iterations from index [j]. *)
Fixpoint powers_loop (B : MatrixXd) (derivative : Z) (t : R) (n : nat) (j : Z)
    (t_power : R) (coeffs : VectorXd) : option VectorXd :=
  match n with
  | O => Some coeffs
  | S n' =>
      match entry B derivative j with
      | None => None
      | Some b =>
          match set_coeff coeffs j (b * t_power)%R with
          | None => None
          | Some coeffs' =>
              powers_loop B derivative t n' (j + 1) (t_power * t)%R coeffs'
          end
      end
  end.

(** [static void baseCoeffsWithTime(int N, int derivative, double t,
                                    Eigen::VectorXd* coeffs)];
    the vector passed in is resized and zeroed, so only its new value is
    modelled. *)
Definition baseCoeffsWithTime_into (N derivative : Z) (t : R) (coeffs : VectorXd)
  : M VectorXd :=
  B <- get_base_coefficients ;;
  CHECK (derivative <? N) ;;
  CHECK (derivative >=? 0) ;;
  coeffs <- eigen (zero_vector N) ;;
  b <- eigen (entry B derivative derivative) ;;
  coeffs <- eigen (set_coeff coeffs derivative b) ;;
  if Rltb (Rabs t) epsilon then ret coeffs
  else
    let t_power := t in
    eigen (powers_loop B derivative t (Z.to_nat (N - (derivative + 1)))
                       (derivative + 1) t_power coeffs).

(** [static Eigen::VectorXd baseCoeffsWithTime(int N, int derivative, double t)] *)
Definition baseCoeffsWithTime (N derivative : Z) (t : R) : M VectorXd :=
  c <- eigen (zero_vector N) ;;
  baseCoeffsWithTime_into N derivative t c.

(** ** The extremum search *)

(** The out-parameters [t_min], [t_max], [min], [max] of [findMinMax]. *)
Record MinMax : Type := mkMinMax {
  t_min : R;
  t_max : R;
  min : R;
  max : R
}.

(** Modelled from the spec: the bodies of the two out-of-line [findMinMax]
    overloads are not in polynomial.h, which only declares them.  "A complex
    root is treated as real and admissible when its imaginary part is within
    a small numerical tolerance of zero and its real part lies within
    [t1, t2]." *)
Definition admissible (t_1 t_2 : R) (root : Complex) : bool :=
  Rleb (Rabs (imag root)) kTolerance
  && Rleb t_1 (real root) && Rleb (real root) t_2.

(** Modelled from the spec: part of the missing [findMinMax] body.
    "Candidate times = {t1, t2} U {admissible real parts of roots}." *)
Definition candidates (t_1 t_2 : R) (roots_of_derivative : VectorXcd) : list R :=
  t_1 :: t_2 :: map real (filter (admissible t_1 t_2) roots_of_derivative).

(** Modelled from the spec: part of the missing [findMinMax] body.
    "Evaluate the order-th derivative at every candidate time." *)
Fixpoint evaluate_each (order_to_evaluate : Z) (ts : list R) : M (list (R * R)) :=
  match ts with
  | [] => ret []
  | t :: ts' =>
      value <- evaluate t order_to_evaluate ;;
      rest <- evaluate_each order_to_evaluate ts' ;;
      ret ((t, value) :: rest)
  end.

(** Modelled from the spec: part of the missing [findMinMax] body.
    "min/max = the extremal evaluated values; tMin/tMax = the corresponding
    candidate times (first occurrence wins on ties)": a later candidate
    replaces the current one only when strictly better. *)
Fixpoint select (evaluated : list (R * R)) (best : MinMax) : MinMax :=
  match evaluated with
  | [] => best
  | (t, value) :: rest =>
      let best1 :=
        if Rltb value (min best)
        then mkMinMax t (t_max best) value (max best) else best in
      let best2 :=
        if Rltb (max best1) value
        then mkMinMax (t_min best1) t (min best1) value else best1 in
      select rest best2
  end.

(** Modelled from the spec: the missing body of
    [bool findMinMax(double t_1, double t_2, int order_to_evaluate,
                     const Eigen::VectorXcd& roots_of_derivative,
                     double* t_min, double* t_max, double* min, double* max) const].
    "Returns failure if [t1 <= t2] is violated or if order is negative."
    The value [None] is the return value [false], [Some] the return value
    [true] with the four out-parameters. *)
Definition findMinMax_roots (t_1 t_2 : R) (order_to_evaluate : Z)
    (roots_of_derivative : VectorXcd) : M (option MinMax) :=
  if Rltb t_2 t_1 then ret None
  else if order_to_evaluate <? 0 then ret None
  else
    first <- evaluate t_1 order_to_evaluate ;;
    evaluated <- evaluate_each order_to_evaluate
                   (List.tl (candidates t_1 t_2 roots_of_derivative)) ;;
    ret (Some (select evaluated (mkMinMax t_1 t_1 first first))).

(** Modelled from the spec: the missing body of
    [bool findMinMax(double t_1, double t_2, int order_to_evaluate,
                     double* t_min, double* t_max, double* min, double* max) const].
    The roots are those "of the derivative one order higher than order",
    found by the root solver on that derivative's coefficients; for
    [order >= N] the search is the "trivial success (constant zero
    function)": there is no higher derivative to solve and every candidate
    evaluates to zero. *)
Definition findMinMax (t_1 t_2 : R) (order_to_evaluate : Z) : M (option MinMax) :=
  if Rltb t_2 t_1 then ret None
  else if order_to_evaluate <? 0 then ret None
  else
    p <- get_this ;;
    if order_to_evaluate >=? N_ p
    then findMinMax_roots t_1 t_2 order_to_evaluate []
    else
      derivative <- getCoefficients (order_to_evaluate + 1) ;;
      findMinMax_roots t_1 t_2 order_to_evaluate
                       (findRootsJenkinsTraub derivative).

(** The inline overloads of polynomial.h that drop [t_min] and [t_max]. *)
Definition min_max (r : option MinMax) : option (R * R) :=
  option_map (fun e => (min e, max e)) r.

Definition findMinMax_roots_values (t_1 t_2 : R) (order_to_evaluate : Z)
    (roots_of_derivative : VectorXcd) : M (option (R * R)) :=
  r <- findMinMax_roots t_1 t_2 order_to_evaluate roots_of_derivative ;;
  ret (min_max r).

Definition findMinMax_values (t_1 t_2 : R) (order_to_evaluate : Z)
  : M (option (R * R)) :=
  r <- findMinMax t_1 t_2 order_to_evaluate ;;
  ret (min_max r).

(** ** The interface of the class as data *)

Inductive call : Type :=
| call_operator_eq (rhs : Polynomial)
| call_operator_neq (rhs : Polynomial)
| call_N
| call_setCoefficients (coeffs : VectorXd)
| call_getCoefficients (derivative : Z)
| call_evaluate_vector (t : R) (result : VectorXd)
| call_evaluate (t : R) (derivative : Z)
| call_computeRoots
| call_findMinMax_roots (t_1 t_2 : R) (order_to_evaluate : Z)
                        (roots_of_derivative : VectorXcd)
| call_findMinMax_roots_values (t_1 t_2 : R) (order_to_evaluate : Z)
                               (roots_of_derivative : VectorXcd)
| call_findMinMax (t_1 t_2 : R) (order_to_evaluate : Z)
| call_findMinMax_values (t_1 t_2 : R) (order_to_evaluate : Z)
| call_baseCoeffsWithTime_into (N derivative : Z) (t : R) (coeffs : VectorXd)
| call_baseCoeffsWithTime (N derivative : Z) (t : R).

Inductive value : Type :=
| value_void
| value_bool (b : bool)
| value_int (n : Z)
| value_double (x : R)
| value_vector (v : VectorXd)
| value_roots (v : VectorXcd)
| value_min_max (r : option MinMax)
| value_values (r : option (R * R)).

Definition returning {A} (wrap : A -> value) (m : M A) : M value :=
  a <- m ;; ret (wrap a).

Definition exec (c : call) : M value :=
  match c with
  | call_operator_eq rhs => returning value_bool (operator_eq rhs)
  | call_operator_neq rhs => returning value_bool (operator_neq rhs)
  | call_N => returning value_int N
  | call_setCoefficients coeffs =>
      returning (fun _ => value_void) (setCoefficients coeffs)
  | call_getCoefficients derivative =>
      returning value_vector (getCoefficients derivative)
  | call_evaluate_vector t result =>
      returning value_vector (evaluate_vector t result)
  | call_evaluate t derivative => returning value_double (evaluate t derivative)
  | call_computeRoots => returning value_roots computeRoots
  | call_findMinMax_roots t_1 t_2 order roots =>
      returning value_min_max (findMinMax_roots t_1 t_2 order roots)
  | call_findMinMax_roots_values t_1 t_2 order roots =>
      returning value_values (findMinMax_roots_values t_1 t_2 order roots)
  | call_findMinMax t_1 t_2 order =>
      returning value_min_max (findMinMax t_1 t_2 order)
  | call_findMinMax_values t_1 t_2 order =>
      returning value_values (findMinMax_values t_1 t_2 order)
  | call_baseCoeffsWithTime_into N derivative t coeffs =>
      returning value_vector (baseCoeffsWithTime_into N derivative t coeffs)
  | call_baseCoeffsWithTime N derivative t =>
      returning value_vector (baseCoeffsWithTime N derivative t)
  end.

(** The calls that are not [setCoefficients]: the const and static members. *)
Definition is_query (c : call) : bool :=
  match c with
  | call_setCoefficients _ => false
  | _ => true
  end.

(** ** What the statements are about *)

(** "Invariant: length always equals order." *)
Definition invariant (p : Polynomial) : Prop := size (coefficients_ p) = N_ p.

(** "Shared across all Polynomial instances with order <= kMaxN; a
    polynomial exceeding kMaxN is unsupported." *)
Definition supported (p : Polynomial) : Prop := N_ p <= kMaxN.

(** The static table holds what its initialiser computed. *)
Definition initialised (s : State) : Prop :=
  base_coefficients_ s = initial_base_coefficients.

(** The sum of [f k] for [k] from [lo] to [lo + len - 1]. *)
Fixpoint sigma (lo len : nat) (f : nat -> R) : R :=
  match len with
  | O => 0%R
  | S len' => (f lo + sigma (S lo) len' f)%R
  end.

(** The falling factorial j (j-1) ... (j-d+1). *)
Fixpoint falling (j d : nat) : nat :=
  match d with
  | O => 1%nat
  | S d' => (j * falling (Nat.pred j) d')%nat
  end.

(** The d-th derivative of c_0 + c_1 t + ... + c_{n-1} t^{n-1} at t, term by
    term: the sum over j from d to n-1 of c_j (j!/(j-d)!) t^(j-d). *)
Definition derivative_value (c : VectorXd) (d : nat) (t : R) : R :=
  sigma d (length c - d)
        (fun j => nth j c 0 * (INR (fact j) / INR (fact (j - d))) * t ^ (j - d))%R.

(** The entry B[d][j] of a table, as a number (0 outside the table). *)
Definition table_entry (B : MatrixXd) (d j : nat) : R :=
  match entry B (Z.of_nat d) (Z.of_nat j) with
  | Some b => b
  | None => 0%R
  end.

(** A computation that, when it returns, returns in the state it started in. *)
Definition read_only {A} (m : M A) : Prop :=
  forall s a s', m s = Ok (a, s') -> s' = s.

(** The value of the order-th derivative at t: what [evaluate(t, order)]
    stands for, zero from the order N on. *)
Definition derivative_at (p : Polynomial) (order : Z) (t : R) : R :=
  if order >=? N_ p then 0%R
  else derivative_value (coefficients_ p) (Z.to_nat order) t.

(** [t] is the first candidate at which [f] is smallest: no candidate before
    it is as small, none after it is smaller. *)
Definition first_min (f : R -> R) (cands : list R) (t : R) : Prop :=
  exists before after,
    cands = before ++ t :: after
    /\ (forall x, In x before -> (f t < f x)%R)
    /\ (forall x, In x after -> (f t <= f x)%R).

(** [t] is the first candidate at which [f] is largest. *)
Definition first_max (f : R -> R) (cands : list R) (t : R) : Prop :=
  exists before after,
    cands = before ++ t :: after
    /\ (forall x, In x before -> (f x < f t)%R)
    /\ (forall x, In x after -> (f x <= f t)%R).

(** The four out-parameters describe the extrema of [f] over [cands]. *)
Definition extremal (f : R -> R) (cands : list R) (e : MinMax) : Prop :=
  min e = f (t_min e) /\ first_min f cands (t_min e)
  /\ max e = f (t_max e) /\ first_max f cands (t_max e).

(** The candidate times contributed by a root set, in the words of the
    specification and independently of the search itself: going through the
    roots in order, a root contributes its real part when "its imaginary part
    is within a small numerical tolerance of zero and its real part lies
    within [t1, t2]", and contributes nothing otherwise. *)
Inductive admissible_real_parts (t_1 t_2 : R) : VectorXcd -> list R -> Prop :=
| no_roots_left : admissible_real_parts t_1 t_2 [] []
| root_admitted (re im : R) (roots : VectorXcd) (ts : list R) :
    (Rabs im <= kTolerance)%R -> (t_1 <= re <= t_2)%R ->
    admissible_real_parts t_1 t_2 roots ts ->
    admissible_real_parts t_1 t_2 ((re, im) :: roots) (re :: ts)
| root_discarded (re im : R) (roots : VectorXcd) (ts : list R) :
    ~ ((Rabs im <= kTolerance)%R /\ (t_1 <= re <= t_2)%R) ->
    admissible_real_parts t_1 t_2 roots ts ->
    admissible_real_parts t_1 t_2 ((re, im) :: roots) ts.

(** ** Notions for the further properties *)


(** The coefficients of the d-th derivative of the polynomial with
    coefficients [c], in the same basis and padded with d zeros. *)
Definition derivative_coefficients (c : VectorXd) (d : nat) : VectorXd :=
  map (fun j => nth j c 0 * INR (falling j d))%R (seq d (length c - d))
  ++ repeat 0%R d.

(** A program over one object: calls made one after the other. *)
Fixpoint run_calls (cs : list call) : M (list value) :=
  match cs with
  | [] => ret []
  | c :: cs' =>
      v <- exec c ;;
      vs <- run_calls cs' ;;
      ret (v :: vs)
  end.

(** The argument of the last [setCoefficients] of a program, or [c] when it
    has none. *)
Fixpoint last_set (cs : list call) (c : VectorXd) : VectorXd :=
  match cs with
  | [] => c
  | call_setCoefficients coeffs :: cs' => last_set cs' coeffs
  | _ :: cs' => last_set cs' c
  end.


(** ** Example inputs *)

(** The cubic t^3: coefficients [0, 0, 0, 1]. *)
Definition cubic : Polynomial := mkPolynomial 4 [0; 0; 0; 1]%R.

Definition cubic_state : State := mkState initial_base_coefficients cubic.

(** 1 + 2 t + 3 t^2. *)
Definition quadratic : Polynomial := mkPolynomial 3 [1; 2; 3]%R.

Definition quadratic_state : State := mkState initial_base_coefficients quadratic.

(** A root solver that reports the double root 0, the roots of 3 t^2. *)
Definition double_root_at_zero (coeffs : VectorXd) : VectorXcd :=
  [(0, 0); (0, 0)]%R.

(** A tolerance for the imaginary part of a root. *)
Definition example_tolerance : R := (/ 100000000)%R.

(** A polynomial of order 13, one above kMaxN. *)
Definition order_thirteen : Polynomial := mkPolynomial 13 (repeat 1%R 13).

Definition order_thirteen_state : State :=
  mkState initial_base_coefficients order_thirteen.



(** ** Facts about the basis table *)

Lemma falling_last (d j : nat) :
  falling j (S d) = (falling j d * (j - d))%nat.
Proof.
  revert j; induction d as [|d IH]; intros j.
  - simpl. lia.
  - change (falling j (S (S d))) with (j * falling (Nat.pred j) (S d))%nat.
    change (falling j (S d)) with (j * falling (Nat.pred j) d)%nat.
    rewrite IH, Nat.mul_assoc. f_equal. lia.
Qed.

Lemma iter_differentiate (d m e : nat) :
  Nat.iter d differentiate (m, e) = ((m * falling e d)%nat, (e - d)%nat).
Proof.
  induction d as [|d IH].
  - simpl. f_equal; lia.
  - rewrite Nat.iter_succ, IH. unfold differentiate; cbn [fst snd].
    rewrite falling_last. f_equal; lia.
Qed.

Lemma basis_multiplier_falling (d j : nat) :
  basis_multiplier d j = falling j d.
Proof.
  unfold basis_multiplier. rewrite iter_differentiate. simpl. lia.
Qed.

Lemma falling_fact (d j : nat) :
  (d <= j)%nat -> (falling j d * fact (j - d))%nat = fact j.
Proof.
  revert j; induction d as [|d IH]; intros j Hdj.
  - simpl. rewrite Nat.sub_0_r. lia.
  - destruct j as [|j]; [lia|].
    change (falling (S j) (S d)) with (S j * falling j d)%nat.
    replace (S j - S d)%nat with (j - d)%nat by lia.
    rewrite <- Nat.mul_assoc, IH by lia. reflexivity.
Qed.

Lemma falling_above (d j : nat) :
  (j < d)%nat -> falling j d = 0%nat.
Proof.
  revert j; induction d as [|d IH]; intros j Hjd; [lia|].
  destruct j as [|j]; [reflexivity|].
  change (falling (S j) (S d)) with (S j * falling j d)%nat.
  rewrite IH by lia. lia.
Qed.

Lemma falling_quotient (d j : nat) :
  (d <= j)%nat -> INR (falling j d) = (INR (fact j) / INR (fact (j - d)))%R.
Proof.
  intros Hdj. rewrite <- (falling_fact Hdj), mult_INR.
  field. apply INR_fact_neq_0.
Qed.

Lemma falling_diagonal (d : nat) : falling d d = fact d.
Proof.
  rewrite <- (@falling_fact d d) by lia.
  rewrite Nat.sub_diag. simpl. lia.
Qed.

Lemma traverse_map {A B} (f : A -> option B) (g : A -> B) (l : list A) :
  (forall a, In a l -> f a = Some (g a)) -> traverse f l = Some (map g l).
Proof.
  induction l as [|a l IH]; intros Hl; [reflexivity|].
  simpl. rewrite (Hl a) by (left; reflexivity).
  rewrite IH by (intros; apply Hl; right; assumption). reflexivity.
Qed.

Lemma Zseq_of_nat (lo len : nat) :
  Zseq (Z.of_nat lo) len = map Z.of_nat (seq lo len).
Proof.
  revert lo; induction len as [|len IH]; intros lo; [reflexivity|].
  simpl. f_equal. rewrite <- IH. f_equal. lia.
Qed.

Lemma coeff_of_nat (v : VectorXd) (i : nat) :
  coeff v (Z.of_nat i) = nth_error v i.
Proof.
  unfold coeff. destruct (Z.ltb_spec (Z.of_nat i) 0); [lia|].
  rewrite Nat2Z.id. reflexivity.
Qed.

Lemma entry_computeBaseCoefficients (n d j : nat) :
  (d < n)%nat -> (j < n)%nat ->
  entry (computeBaseCoefficients (Z.of_nat n)) (Z.of_nat d) (Z.of_nat j)
  = Some (INR (falling j d)).
Proof.
  intros Hd Hj. unfold entry, computeBaseCoefficients.
  destruct (Z.ltb_spec (Z.of_nat d) 0); [lia|].
  rewrite !Nat2Z.id.
  rewrite nth_error_map, nth_error_seq.
  destruct (Nat.ltb_spec d n) as [_|]; [|lia]. cbn [option_map].
  rewrite coeff_of_nat, nth_error_map, nth_error_seq.
  destruct (Nat.ltb_spec j n) as [_|]; [|lia]. cbn [option_map Nat.add].
  rewrite basis_multiplier_falling. reflexivity.
Qed.

Lemma entry_initial (d j : nat) :
  (Z.of_nat d < kMaxN) -> (Z.of_nat j < kMaxN) ->
  entry initial_base_coefficients (Z.of_nat d) (Z.of_nat j)
  = Some (INR (falling j d)).
Proof.
  intros Hd Hj. unfold initial_base_coefficients.
  replace kMaxN with (Z.of_nat 12) by reflexivity.
  apply entry_computeBaseCoefficients; unfold kMaxN in *; lia.
Qed.

Lemma block_row_initial (d lo len : nat) :
  (Z.of_nat d < kMaxN) -> (Z.of_nat (lo + len) <= kMaxN) ->
  block_row initial_base_coefficients (Z.of_nat d) (Z.of_nat lo) (Z.of_nat len)
  = Some (map (fun j => INR (falling j d)) (seq lo len)).
Proof.
  intros Hd Hlen. unfold block_row.
  destruct (Z.ltb_spec (Z.of_nat len) 0); [lia|].
  rewrite Nat2Z.id, Zseq_of_nat.
  rewrite (traverse_map _ (fun z => INR (falling (Z.to_nat z) d))).
  - rewrite map_map. f_equal. apply map_ext. intros j.
    rewrite Nat2Z.id. reflexivity.
  - intros z Hz.
    apply in_map_iff in Hz. destruct Hz as [j [<- Hj]].
    apply in_seq in Hj. rewrite Nat2Z.id.
    apply entry_initial; lia.
Qed.

(** ** Facts about the evaluation recurrence *)

Lemma sigma_ext (lo len : nat) (f g : nat -> R) :
  (forall k, (lo <= k < lo + len)%nat -> f k = g k) ->
  sigma lo len f = sigma lo len g.
Proof.
  revert lo; induction len as [|len IH]; intros lo Hfg; [reflexivity|].
  simpl. rewrite (Hfg lo) by lia. f_equal.
  apply IH. intros k Hk. apply Hfg. lia.
Qed.

Lemma sigma_last (lo len : nat) (f : nat -> R) :
  sigma lo (S len) f = (sigma lo len f + f (lo + len)%nat)%R.
Proof.
  revert lo; induction len as [|len IH]; intros lo.
  - simpl. rewrite Nat.add_0_r. ring.
  - change (sigma lo (S (S len)) f) with (f lo + sigma (S lo) (S len) f)%R.
    rewrite IH. simpl sigma.
    replace (S lo + len)%nat with (lo + S len)%nat by lia. ring.
Qed.

(** The inner loop run over the indices d+n-1 down to d adds the terms of
    those indices to the accumulator, which it has multiplied by t^n. *)
Lemma horner_sigma (row c : VectorXd) (a b : nat -> R) (t : R) (d n : nat) :
  (forall k, (d <= k < d + n)%nat ->
             nth_error row k = Some (a k) /\ nth_error c k = Some (b k)) ->
  forall acc,
    horner row c t n (Z.of_nat (d + n) - 1) acc
    = Some (acc * t ^ n + sigma d n (fun k => a k * b k * t ^ (k - d)))%R.
Proof.
  induction n as [|n IH]; intros Hk acc.
  - simpl. f_equal. ring.
  - cbn [horner].
    replace (Z.of_nat (d + S n) - 1)%Z with (Z.of_nat (d + n)) by lia.
    rewrite !coeff_of_nat.
    destruct (Hk (d + n)%nat ltac:(lia)) as [-> ->].
    replace (Z.of_nat (d + n) - 1)%Z with (Z.of_nat (d + n) - 1)%Z by lia.
    rewrite IH by (intros k Hk'; apply Hk; lia).
    rewrite sigma_last. f_equal.
    replace (d + n - d)%nat with n by lia. simpl pow. ring.
Qed.

Lemma nth_error_nth_default (v : VectorXd) (k : nat) :
  (k < length v)%nat -> nth_error v k = Some (nth k v 0%R).
Proof. intros Hk. apply nth_error_nth'. assumption. Qed.

(** One derivative, for a well-formed polynomial of a supported order. *)
Lemma evaluate_one_value (p : Polynomial) (t : R) (d : nat) :
  invariant p -> supported p -> Z.of_nat d < N_ p ->
  evaluate_one initial_base_coefficients p t (Z.of_nat d)
  = Some (derivative_value (coefficients_ p) d t).
Proof.
  unfold invariant, supported, size. intros Hinv Hsup Hd.
  set (c := coefficients_ p) in *.
  assert (Hn : N_ p = Z.of_nat (length c)) by lia.
  unfold evaluate_one. fold c. rewrite Hn.
  assert (Hrow := @block_row_initial d 0 (length c) ltac:(lia) ltac:(simpl; lia)).
  change (Z.of_nat 0) with 0 in Hrow. rewrite Hrow.
  destruct (length c) as [|m] eqn:Hlen; [lia|].
  replace (Z.of_nat (S m) - 1) with (Z.of_nat m) by lia.
  rewrite !coeff_of_nat.
  rewrite nth_error_map, nth_error_seq.
  destruct (Nat.ltb_spec m (S m)) as [_|]; [|lia]. cbn [option_map Nat.add].
  rewrite (@nth_error_nth_default c m) by lia.
  replace (Z.to_nat (Z.of_nat m - Z.of_nat d)) with (m - d)%nat by lia.
  replace (Z.of_nat m - 1) with (Z.of_nat (d + (m - d)) - 1) by lia.
  rewrite (@horner_sigma _ c (fun k => INR (falling k d)) (fun k => nth k c 0%R)).
  - f_equal. unfold derivative_value. rewrite Hlen.
    replace (S m - d)%nat with (S (m - d)) by lia.
    rewrite sigma_last.
    replace (d + (m - d))%nat with m by lia.
    rewrite (@falling_quotient d m) by lia.
    rewrite (Rplus_comm (_ * _ ^ _)). f_equal.
    + apply sigma_ext. intros k Hk.
      rewrite (@falling_quotient d k) by lia. ring.
    + ring.
  - intros k Hk. split.
    + rewrite nth_error_map, nth_error_seq.
      destruct (Nat.ltb_spec k (S m)) as [_|]; [|lia]. reflexivity.
    + apply nth_error_nth_default. lia.
Qed.

(** ** The scalar form of evaluate *)

Ltac run_monad :=
  repeat progress
    (unfold bind, ret, abort, eigen, CHECK, get_this, get_base_coefficients,
       set_this, returning; cbn beta iota).

(** C1.  For a polynomial of a supported order N (at most kMaxN) with
    coefficients c_0 .. c_{N-1}, and a derivative index d with 0 <= d < N,
    the scalar [evaluate(t, d)] returns the value at t of the d-th
    derivative: the sum over j from d to N-1 of c_j * (j!/(j-d)!) * t^(j-d),
    exactly over the reals; the polynomial and the table are left as they
    were. *)
Theorem evaluate_derivative_value (s : State) (t : R) (d : nat) :
  initialised s -> invariant (this s) -> supported (this s) ->
  Z.of_nat d < N_ (this s) ->
  evaluate t (Z.of_nat d) s
  = Ok (derivative_value (coefficients_ (this s)) d t, s).
Proof.
  intros Hinit Hinv Hsup Hd.
  unfold evaluate. run_monad.
  destruct (Z.geb_spec (Z.of_nat d) (N_ (this s))); [lia|].
  rewrite Hinit, evaluate_one_value by assumption.
  reflexivity.
Qed.

(** C7.  For every polynomial of order N, every time t and every derivative
    index d with d >= N, the scalar [evaluate(t, d)] returns exactly 0.0: a
    value, not an error. *)
Theorem evaluate_beyond_order (s : State) (t : R) (d : Z) :
  d >= N_ (this s) ->
  evaluate t d s = Ok (0%R, s).
Proof.
  intros Hd. unfold evaluate. run_monad.
  destruct (Z.geb_spec d (N_ (this s))); [reflexivity|lia].
Qed.

(** ** getCoefficients *)

Lemma table_entry_initial (d j : nat) :
  Z.of_nat d < kMaxN -> Z.of_nat j < kMaxN ->
  table_entry initial_base_coefficients d j = INR (falling j d).
Proof.
  intros Hd Hj. unfold table_entry. rewrite entry_initial by assumption.
  reflexivity.
Qed.

Lemma skipn_nth_cons (c : VectorXd) (d : nat) :
  (d < length c)%nat -> skipn d c = nth d c 0%R :: skipn (S d) c.
Proof.
  revert d; induction c as [|x c IH]; intros d Hd; simpl in Hd; [lia|].
  destruct d as [|d]; [reflexivity|].
  change (skipn (S d) (x :: c)) with (skipn d c).
  rewrite IH by lia. reflexivity.
Qed.

Lemma cwiseProduct_skipn (c : VectorXd) (f : nat -> R) (m d : nat) :
  (d + m)%nat = length c ->
  cwiseProduct (skipn d c) (map f (seq d m))
  = Some (map (fun j => nth j c 0 * f j)%R (seq d m)).
Proof.
  revert d; induction m as [|m IH]; intros d Hlen.
  - rewrite skipn_all2 by lia. reflexivity.
  - rewrite skipn_nth_cons by lia. cbn [seq map cwiseProduct].
    rewrite IH by lia. reflexivity.
Qed.

Lemma skipn_repeat (x : R) (k n : nat) :
  (k <= n)%nat -> skipn k (repeat x n) = repeat x (n - k).
Proof.
  revert n; induction k as [|k IH]; intros n Hk.
  - rewrite Nat.sub_0_r. reflexivity.
  - destruct n as [|n]; [lia|]. simpl. apply IH. lia.
Qed.

Lemma nth_error_repeat_lt (x : R) (k n : nat) :
  (k < n)%nat -> nth_error (repeat x n) k = Some x.
Proof.
  revert k; induction n as [|n IH]; intros k Hk; [lia|].
  destruct k as [|k]; [reflexivity|]. simpl. apply IH. lia.
Qed.

(** The vector [getCoefficients(d)] builds for 0 < d <= N. *)
Lemma getCoefficients_vector (s : State) (d : nat) :
  initialised s -> invariant (this s) -> supported (this s) ->
  (0 < d)%nat -> Z.of_nat d <= N_ (this s) ->
  getCoefficients (Z.of_nat d) s
  = Ok (map (fun j => nth j (coefficients_ (this s)) 0 * INR (falling j d))%R
            (seq d (length (coefficients_ (this s)) - d))
        ++ repeat 0%R d, s).
Proof.
  unfold invariant, supported, size. intros Hinit Hinv Hsup Hpos Hd.
  set (c := coefficients_ (this s)) in *.
  unfold getCoefficients. run_monad. fold c.
  destruct (Z.leb_spec (Z.of_nat d) (N_ (this s))); [|lia].
  destruct (Z.eqb_spec (Z.of_nat d) 0); [lia|].
  rewrite <- Hinv, Hinit.
  unfold zero_vector, tail, size.
  destruct (Z.ltb_spec (Z.of_nat (length c)) 0); [lia|].
  destruct (Z.ltb_spec (Z.of_nat (length c) - Z.of_nat d) 0); [lia|].
  destruct (Z.ltb_spec (Z.of_nat (length c))
                       (Z.of_nat (length c) - Z.of_nat d)); [lia|].
  cbn [orb]. rewrite Nat2Z.id.
  replace (Z.of_nat (length c) - Z.of_nat d)
    with (Z.of_nat (length c - d)) by lia.
  rewrite Nat2Z.id.
  replace (length c - (length c - d))%nat with d by lia.
  assert (Hblock :
    block_row initial_base_coefficients (Z.of_nat d) (Z.of_nat d)
              (Z.of_nat (length c - d))
    = Some (map (fun j => INR (falling j d)) (seq d (length c - d)))).
  { destruct (length c - d)%nat as [|m] eqn:Hm.
    - reflexivity.
    - apply block_row_initial; lia. }
  rewrite Hblock. run_monad. rewrite cwiseProduct_skipn by lia. run_monad.
  unfold assign_head, size.
  rewrite length_map, length_seq, repeat_length.
  destruct (Z.ltb_spec (Z.of_nat (length c - d)) 0); [lia|].
  destruct (Z.ltb_spec (Z.of_nat (length c)) (Z.of_nat (length c - d))); [lia|].
  rewrite Z.eqb_refl. cbn [orb negb].
  rewrite Nat2Z.id, skipn_repeat by lia.
  replace (length c - (length c - d))%nat with d by lia.
  reflexivity.
Qed.

(** C2.  For a polynomial of a supported order N and a derivative index d
    with 0 <= d <= N, [getCoefficients(d)] returns a sequence of length N:
    for d = 0 the stored coefficients unchanged; for d > 0 entry i is
    coefficients[i+d] * B[d][i+d] for i in [0, N-d) and 0 for i >= N-d, so
    that d = N gives the all-zero sequence.  It fails when d > N. *)
Theorem getCoefficients_derivative (s : State) :
  initialised s -> invariant (this s) -> supported (this s) ->
  getCoefficients 0 s = Ok (coefficients_ (this s), s)
  /\ size (coefficients_ (this s)) = N_ (this s)
  /\ (forall d : nat,
        (0 < d)%nat -> Z.of_nat d <= N_ (this s) ->
        exists v,
          getCoefficients (Z.of_nat d) s = Ok (v, s)
          /\ size v = N_ (this s)
          /\ (forall i : nat,
                Z.of_nat i < N_ (this s) - Z.of_nat d ->
                nth_error v i
                = Some (nth (i + d) (coefficients_ (this s)) 0
                        * table_entry (base_coefficients_ s) d (i + d))%R)
          /\ (forall i : nat,
                N_ (this s) - Z.of_nat d <= Z.of_nat i < N_ (this s) ->
                nth_error v i = Some 0%R)
          /\ (Z.of_nat d = N_ (this s) ->
              v = repeat 0%R (Z.to_nat (N_ (this s)))))
  /\ (forall d : Z, d > N_ (this s) -> getCoefficients d s = Fatal).
Proof.
  intros Hinit Hinv Hsup.
  assert (Hinv' := Hinv). assert (Hsup' := Hsup).
  unfold invariant, size in Hinv'. unfold supported in Hsup'.
  split; [|split; [assumption|split]].
  - unfold getCoefficients. run_monad.
    destruct (Z.leb_spec 0 (N_ (this s))); [reflexivity|lia].
  - intros d Hpos Hd. eexists. split; [apply getCoefficients_vector; assumption|].
    set (c := coefficients_ (this s)) in *.
    split; [|split; [|split]].
    + unfold size. rewrite length_app, length_map, length_seq, repeat_length. lia.
    + intros i Hi.
      rewrite nth_error_app1 by (rewrite length_map, length_seq; lia).
      rewrite nth_error_map, nth_error_seq.
      destruct (Nat.ltb_spec i (length c - d)) as [_|]; [|lia].
      cbn [option_map]. rewrite Hinit.
      rewrite table_entry_initial by lia.
      replace (d + i)%nat with (i + d)%nat by lia. reflexivity.
    + intros i Hi.
      rewrite nth_error_app2 by (rewrite length_map, length_seq; lia).
      rewrite length_map, length_seq.
      apply nth_error_repeat_lt. lia.
    + intros HdN.
      replace (length c - d)%nat with 0%nat by lia.
      replace (Z.to_nat (N_ (this s))) with d by lia. reflexivity.
  - intros d Hd. unfold getCoefficients. run_monad.
    destruct (Z.leb_spec d (N_ (this s))); [lia|reflexivity].
Qed.

(** ** The vector form of evaluate *)

Lemma update_spec (v : VectorXd) (i : nat) (x : R) :
  (i < length v)%nat ->
  exists v',
    update v i x = Some v'
    /\ length v' = length v
    /\ nth_error v' i = Some x
    /\ (forall k, k <> i -> nth_error v' k = nth_error v k).
Proof.
  revert i; induction v as [|y v IH]; intros i Hi; simpl in Hi; [lia|].
  destruct i as [|i].
  - exists (x :: v). repeat split.
    intros [|k] Hk; [congruence|reflexivity].
  - destruct (IH i ltac:(lia)) as (v' & Hv' & Hlen & Hnth & Hother).
    exists (y :: v'). cbn [update]. rewrite Hv'. repeat split.
    + simpl. congruence.
    + assumption.
    + intros [|k] Hk; [reflexivity|]. simpl. apply Hother. congruence.
Qed.

(** The outer loop run over the slots i .. i+n-1 writes the value of each of
    these derivatives into its slot and leaves the other slots alone. *)
Lemma evaluate_loop_spec (B : MatrixXd) (p : Polynomial) (t : R)
    (f : nat -> R) (n : nat) :
  forall (i : nat) (result : VectorXd),
    (i + n <= length result)%nat ->
    (forall k, (i <= k < i + n)%nat ->
               evaluate_one B p t (Z.of_nat k) = Some (f k)) ->
    exists out,
      evaluate_loop B p t n (Z.of_nat i) result = Some out
      /\ length out = length result
      /\ (forall k, (i <= k < i + n)%nat -> nth_error out k = Some (f k))
      /\ (forall k, (k < i \/ i + n <= k)%nat ->
                    nth_error out k = nth_error result k).
Proof.
  induction n as [|n IH]; intros i result Hlen Hf.
  - exists result.
    split; [reflexivity|split; [reflexivity|split; intros; [lia|reflexivity]]].
  - cbn [evaluate_loop]. rewrite (Hf i) by lia.
    unfold set_coeff. destruct (Z.ltb_spec (Z.of_nat i) 0); [lia|].
    rewrite Nat2Z.id.
    destruct (@update_spec result i (f i) ltac:(lia))
      as (r' & -> & Hlen' & Hnth & Hother).
    replace (Z.of_nat i + 1) with (Z.of_nat (S i)) by lia.
    destruct (IH (S i) r' ltac:(lia) ltac:(intros; apply Hf; lia))
      as (out & -> & Hout & Hin & Hout').
    exists out. repeat split.
    + congruence.
    + intros k Hk. destruct (Nat.eq_dec k i) as [->|Hki].
      * rewrite Hout' by lia. assumption.
      * apply Hin. lia.
    + intros k Hk. rewrite Hout' by lia. apply Hother. lia.
Qed.

(** The scalar form, unfolded: its value is decided by the order test and
    the recurrence, and the state is the one it started in. *)
Lemma evaluate_unfold (s : State) (t : R) (d : Z) :
  evaluate t d s
  = if d >=? N_ (this s) then Ok (0%R, s)
    else match evaluate_one (base_coefficients_ s) (this s) t d with
         | Some x => Ok (x, s)
         | None => Fatal
         end.
Proof.
  unfold evaluate. run_monad.
  destruct (d >=? N_ (this s)); [reflexivity|].
  destruct (evaluate_one _ _ _ _); reflexivity.
Qed.

(** C5.  For a polynomial of a supported order N, a time t and a result
    vector of M <= N slots, the vector form of [evaluate] fills slot i with
    the value the scalar form [evaluate(t, i)] returns, for every i in
    [0, M); it fails when M > N. *)
Theorem evaluate_vector_agrees_with_scalar (s : State) (t : R) (result : VectorXd) :
  (size result <= N_ (this s) ->
   initialised s -> invariant (this s) -> supported (this s) ->
   exists out,
     evaluate_vector t result s = Ok (out, s)
     /\ size out = size result
     /\ forall i : nat,
          Z.of_nat i < size result ->
          exists x,
            evaluate t (Z.of_nat i) s = Ok (x, s)
            /\ nth_error out i = Some x)
  /\ (size result > N_ (this s) -> evaluate_vector t result s = Fatal).
Proof.
  split.
  - intros HM Hinit Hinv Hsup.
    destruct (@evaluate_loop_spec (base_coefficients_ s) (this s) t
                (fun k => derivative_value (coefficients_ (this s)) k t)
                (length result) 0 result ltac:(lia)) as (out & Hrun & Hlen & Hin & _).
    { intros k Hk. rewrite Hinit. apply evaluate_one_value; try assumption.
      unfold size in HM. lia. }
    exists out. split; [|split].
    + unfold evaluate_vector. run_monad.
      destruct (Z.leb_spec (size result) (N_ (this s))); [|lia].
      unfold size. rewrite Nat2Z.id.
      change 0 with (Z.of_nat 0). rewrite Hrun. reflexivity.
    + unfold size. congruence.
    + intros i Hi. unfold size in Hi, HM.
      exists (derivative_value (coefficients_ (this s)) i t). split.
      * rewrite evaluate_unfold.
        destruct (Z.geb_spec (Z.of_nat i) (N_ (this s))); [lia|].
        rewrite Hinit, evaluate_one_value by (assumption || lia).
        reflexivity.
      * apply Hin. lia.
  - intros HM. unfold evaluate_vector. run_monad.
    destruct (Z.leb_spec (size result) (N_ (this s))); [lia|reflexivity].
Qed.

(** ** baseCoeffsWithTime *)

Lemma powers_loop_spec (B : MatrixXd) (derivative : Z) (t : R)
    (b : nat -> R) (n : nat) :
  forall (j : nat) (t_power : R) (coeffs : VectorXd),
    (j + n <= length coeffs)%nat ->
    (forall k, (j <= k < j + n)%nat ->
               entry B derivative (Z.of_nat k) = Some (b k)) ->
    exists out,
      powers_loop B derivative t n (Z.of_nat j) t_power coeffs = Some out
      /\ length out = length coeffs
      /\ (forall k, (j <= k < j + n)%nat ->
                    nth_error out k = Some (b k * (t_power * t ^ (k - j)))%R)
      /\ (forall k, (k < j \/ j + n <= k)%nat ->
                    nth_error out k = nth_error coeffs k).
Proof.
  induction n as [|n IH]; intros j t_power coeffs Hlen Hb.
  - exists coeffs.
    split; [reflexivity|split; [reflexivity|split; intros; [lia|reflexivity]]].
  - cbn [powers_loop]. rewrite (Hb j) by lia.
    unfold set_coeff. destruct (Z.ltb_spec (Z.of_nat j) 0); [lia|].
    rewrite Nat2Z.id.
    destruct (@update_spec coeffs j (b j * t_power)%R ltac:(lia))
      as (c' & -> & Hlen' & Hnth & Hother).
    replace (Z.of_nat j + 1) with (Z.of_nat (S j)) by lia.
    destruct (IH (S j) (t_power * t)%R c' ltac:(lia) ltac:(intros; apply Hb; lia))
      as (out & -> & Hout & Hin & Hout').
    exists out. split; [reflexivity|split; [congruence|split]].
    + intros k Hk. destruct (Nat.eq_dec k j) as [->|Hkj].
      * rewrite Hout' by lia. rewrite Hnth, Nat.sub_diag. f_equal. simpl. ring.
      * rewrite Hin by lia. f_equal.
        replace (k - j)%nat with (S (k - S j)) by lia. simpl. ring.
    + intros k Hk. rewrite Hout' by lia. apply Hother. lia.
Qed.

Lemma Rltb_true (x y : R) : Rltb x y = true <-> (x < y)%R.
Proof. unfold Rltb. destruct (Rlt_dec x y); split; intros; congruence || assumption. Qed.

Lemma Rltb_false (x y : R) : Rltb x y = false <-> (y <= x)%R.
Proof.
  unfold Rltb. destruct (Rlt_dec x y); split; intros; try congruence; lra.
Qed.

Lemma Rleb_true (x y : R) : Rleb x y = true <-> (x <= y)%R.
Proof. unfold Rleb. destruct (Rle_dec x y); split; intros; congruence || assumption. Qed.

Lemma Rleb_false (x y : R) : Rleb x y = false <-> (y < x)%R.
Proof.
  unfold Rleb. destruct (Rle_dec x y); split; intros; try congruence; lra.
Qed.

(** The four-argument form, for a supported N: the first write, the early
    return for |t| below epsilon and the loop over the higher columns. *)
Lemma baseCoeffsWithTime_into_spec (s : State) (n d : nat) (t : R)
    (coeffs : VectorXd) :
  initialised s -> Z.of_nat n <= kMaxN -> (d < n)%nat ->
  exists v,
    baseCoeffsWithTime_into (Z.of_nat n) (Z.of_nat d) t coeffs s = Ok (v, s)
    /\ length v = n
    /\ nth_error v d = Some (INR (falling d d))
    /\ (forall j, (j < d)%nat -> nth_error v j = Some 0%R)
    /\ (forall j, (d < j < n)%nat ->
          nth_error v j
          = Some (if Rltb (Rabs t) epsilon then 0
                  else INR (falling j d) * t ^ (j - d))%R).
Proof.
  intros Hinit Hn Hd.
  unfold baseCoeffsWithTime_into. run_monad. rewrite Hinit.
  destruct (Z.ltb_spec (Z.of_nat d) (Z.of_nat n)); [|lia].
  destruct (Z.geb_spec (Z.of_nat d) 0); [|lia].
  unfold zero_vector. destruct (Z.ltb_spec (Z.of_nat n) 0); [lia|].
  rewrite Nat2Z.id, entry_initial by lia.
  unfold set_coeff. destruct (Z.ltb_spec (Z.of_nat d) 0); [lia|].
  rewrite Nat2Z.id.
  destruct (@update_spec (repeat 0%R n) d (INR (falling d d))
              ltac:(rewrite repeat_length; lia))
    as (c1 & -> & Hlen1 & Hnth1 & Hother1).
  rewrite repeat_length in Hlen1.
  assert (Hzero : forall k, (k < n)%nat -> k <> d -> nth_error c1 k = Some 0%R).
  { intros k Hk Hkd. rewrite Hother1 by assumption.
    apply nth_error_repeat_lt. assumption. }
  destruct (Rltb (Rabs t) epsilon) eqn:Heps.
  - exists c1. split; [reflexivity|split; [assumption|split; [assumption|]]].
    split; intros j Hj; apply Hzero; lia.
  - replace (Z.of_nat d + 1) with (Z.of_nat (S d)) by lia.
    replace (Z.to_nat (Z.of_nat n - Z.of_nat (S d))) with (n - S d)%nat by lia.
    destruct (@powers_loop_spec initial_base_coefficients (Z.of_nat d) t
                (fun k => INR (falling k d)) (n - S d) (S d) t c1
                ltac:(lia) ltac:(intros; apply entry_initial; lia))
      as (out & -> & Hout & Hin & Hout').
    exists out. split; [reflexivity|split; [lia|split; [|split]]].
    + rewrite Hout' by lia. assumption.
    + intros j Hj. rewrite Hout' by lia. apply Hzero; lia.
    + intros j Hj. rewrite Hin by lia. f_equal.
      replace (j - d)%nat with (S (j - S d)) by lia. simpl. ring.
Qed.

(** C8.  For a supported N (at most kMaxN), a derivative d with 0 <= d < N
    and a time t: when |t| is below machine epsilon,
    [baseCoeffsWithTime(N, d, t)] returns a sequence of length N with exactly
    one nonzero entry, at index d, equal to B[d][d]; otherwise entry j is
    B[d][j] * t^(j-d) for j >= d and 0 for j < d. *)
Theorem baseCoeffsWithTime_row (s : State) (n d : nat) (t : R) :
  initialised s -> Z.of_nat n <= kMaxN -> (d < n)%nat ->
  exists v,
    baseCoeffsWithTime (Z.of_nat n) (Z.of_nat d) t s = Ok (v, s)
    /\ length v = n
    /\ ((Rabs t < epsilon)%R ->
        nth_error v d = Some (table_entry (base_coefficients_ s) d d)
        /\ table_entry (base_coefficients_ s) d d <> 0%R
        /\ forall j, (j < n)%nat -> j <> d -> nth_error v j = Some 0%R)
    /\ (~ (Rabs t < epsilon)%R ->
        forall j, (j < n)%nat ->
          nth_error v j
          = Some (if (d <=? j)%nat
                  then table_entry (base_coefficients_ s) d j * t ^ (j - d)
                  else 0)%R).
Proof.
  intros Hinit Hn Hd.
  destruct (@baseCoeffsWithTime_into_spec s n d t (repeat 0%R n) Hinit Hn Hd)
    as (v & Hrun & Hlen & Hdiag & Hlow & Hhigh).
  exists v. split; [|split; [assumption|split]].
  - unfold baseCoeffsWithTime. run_monad.
    unfold zero_vector at 1. destruct (Z.ltb_spec (Z.of_nat n) 0); [lia|].
    rewrite Nat2Z.id. exact Hrun.
  - intros Heps. rewrite Hinit, table_entry_initial by lia.
    split; [assumption|split].
    + rewrite falling_diagonal. apply INR_fact_neq_0.
    + intros j Hj Hjd. destruct (Nat.lt_ge_cases j d) as [Hlt|Hge].
      * apply Hlow. assumption.
      * rewrite Hhigh by lia.
        apply Rltb_true in Heps. rewrite Heps. reflexivity.
  - intros Heps j Hj. rewrite Hinit.
    destruct (Nat.leb_spec d j) as [Hdj|Hjd].
    + rewrite table_entry_initial by lia.
      destruct (Nat.eq_dec j d) as [->|Hne].
      * rewrite Hdiag, Nat.sub_diag. f_equal. simpl. ring.
      * rewrite Hhigh by lia.
        destruct (Rltb (Rabs t) epsilon) eqn:Hb; [|reflexivity].
        apply Rltb_true in Hb. contradiction.
    + apply Hlow. assumption.
Qed.

(** ** Read-only computations *)

Lemma read_only_ret {A} (a : A) : read_only (ret a).
Proof. intros s a' s' H. inversion H. reflexivity. Qed.

Lemma read_only_abort {A} : read_only (@abort A).
Proof. intros s a s' H. discriminate H. Qed.

Lemma read_only_bind {A B} (m : M A) (k : A -> M B) :
  read_only m -> (forall a, read_only (k a)) -> read_only (bind m k).
Proof.
  intros Hm Hk s b s' H. unfold bind in H.
  destruct (m s) as [[a s1]|] eqn:Hms; [|discriminate H].
  apply Hm in Hms. subst s1. exact (Hk a s b s' H).
Qed.

Lemma read_only_eigen {A} (o : option A) : read_only (eigen o).
Proof. destruct o; [apply read_only_ret|apply read_only_abort]. Qed.

Lemma read_only_CHECK (b : bool) : read_only (CHECK b).
Proof. destruct b; [apply read_only_ret|apply read_only_abort]. Qed.

Lemma read_only_get_this : read_only get_this.
Proof. intros s a s' H. inversion H. reflexivity. Qed.

Lemma read_only_get_base_coefficients : read_only get_base_coefficients.
Proof. intros s a s' H. inversion H. reflexivity. Qed.

Lemma read_only_if {A} (b : bool) (m1 m2 : M A) :
  read_only m1 -> read_only m2 -> read_only (if b then m1 else m2).
Proof. destruct b; trivial. Qed.

Lemma read_only_returning {A} (wrap : A -> value) (m : M A) :
  read_only m -> read_only (returning wrap m).
Proof.
  intros Hm. apply read_only_bind; [assumption|].
  intros a. apply read_only_ret.
Qed.

Create HintDb frame.
#[local] Hint Resolve read_only_ret read_only_abort read_only_eigen
  read_only_CHECK read_only_get_this read_only_get_base_coefficients
  read_only_if read_only_returning : frame.

Ltac frame :=
  repeat (lazymatch goal with
          | |- read_only (bind _ _) => apply read_only_bind; [|intros ?]
          | |- read_only (if _ then _ else _) => apply read_only_if
          end);
  auto with frame.

Lemma read_only_operator_eq rhs : read_only (operator_eq rhs).
Proof. unfold operator_eq. frame. Qed.

#[local] Hint Resolve read_only_operator_eq : frame.

Lemma read_only_operator_neq rhs : read_only (operator_neq rhs).
Proof. unfold operator_neq. frame. Qed.

Lemma read_only_N : read_only N.
Proof. unfold N. frame. Qed.

Lemma read_only_getCoefficients d : read_only (getCoefficients d).
Proof. unfold getCoefficients. frame. Qed.

Lemma read_only_evaluate_vector t result : read_only (evaluate_vector t result).
Proof. unfold evaluate_vector. frame. Qed.

Lemma read_only_evaluate t d : read_only (evaluate t d).
Proof. unfold evaluate. frame. Qed.

Lemma read_only_computeRoots : read_only computeRoots.
Proof. unfold computeRoots. frame. Qed.

Lemma read_only_baseCoeffsWithTime_into n d t c :
  read_only (baseCoeffsWithTime_into n d t c).
Proof. unfold baseCoeffsWithTime_into. frame. Qed.

#[local] Hint Resolve read_only_operator_neq read_only_N
  read_only_getCoefficients read_only_evaluate_vector read_only_evaluate
  read_only_computeRoots read_only_baseCoeffsWithTime_into : frame.

Lemma read_only_baseCoeffsWithTime n d t : read_only (baseCoeffsWithTime n d t).
Proof. unfold baseCoeffsWithTime. frame. Qed.

Lemma read_only_evaluate_each order ts : read_only (evaluate_each order ts).
Proof. induction ts as [|t ts IH]; cbn [evaluate_each]; frame. Qed.

#[local] Hint Resolve read_only_baseCoeffsWithTime read_only_evaluate_each : frame.

Lemma read_only_findMinMax_roots t_1 t_2 order roots :
  read_only (findMinMax_roots t_1 t_2 order roots).
Proof. unfold findMinMax_roots. frame. Qed.

#[local] Hint Resolve read_only_findMinMax_roots : frame.

Lemma read_only_findMinMax t_1 t_2 order : read_only (findMinMax t_1 t_2 order).
Proof. unfold findMinMax. frame. Qed.

#[local] Hint Resolve read_only_findMinMax : frame.

Lemma read_only_query (c : call) : is_query c = true -> read_only (exec c).
Proof.
  destruct c; cbn [is_query exec]; intros Hq; try discriminate Hq;
    try (apply read_only_returning; auto with frame).
  - unfold findMinMax_roots_values. frame.
  - unfold findMinMax_values. frame.
Qed.

(** What [setCoefficients] does to the state when it returns. *)
Lemma setCoefficients_returns (coeffs : VectorXd) (s : State) (u : unit) (s' : State) :
  setCoefficients coeffs s = Ok (u, s') ->
  N_ (this s) = size coeffs
  /\ s' = mkState (base_coefficients_ s) (mkPolynomial (N_ (this s)) coeffs).
Proof.
  unfold setCoefficients. run_monad.
  destruct (Z.eqb_spec (N_ (this s)) (size coeffs)); [|discriminate].
  intros H. inversion H. split; [assumption|reflexivity].
Qed.

(** Every call leaves the static table and the order as they were. *)
Lemma exec_keeps_table_and_order (c : call) (s : State) (v : value) (s' : State) :
  exec c s = Ok (v, s') ->
  base_coefficients_ s' = base_coefficients_ s /\ N_ (this s') = N_ (this s).
Proof.
  intros Hrun. destruct (is_query c) eqn:Hq.
  - apply (read_only_query c Hq) in Hrun. subst s'. split; reflexivity.
  - destruct c; try discriminate Hq. cbn [exec] in Hrun.
    unfold returning, bind in Hrun.
    destruct (setCoefficients coeffs s) as [[u s1]|] eqn:Hset; [|discriminate].
    apply setCoefficients_returns in Hset. destruct Hset as [_ ->].
    inversion Hrun. split; reflexivity.
Qed.

(** ** The extremum search *)

Lemma first_min_least (f : R -> R) (cands : list R) (t : R) :
  first_min f cands t ->
  In t cands /\ forall x, In x cands -> (f t <= f x)%R.
Proof.
  intros (before & after & -> & Hbefore & Hafter). split.
  - apply in_or_app. right. left. reflexivity.
  - intros x Hx. apply in_app_or in Hx. destruct Hx as [Hx|[<-|Hx]].
    + apply Rlt_le, Hbefore, Hx.
    + apply Rle_refl.
    + apply Hafter, Hx.
Qed.

Lemma first_max_greatest (f : R -> R) (cands : list R) (t : R) :
  first_max f cands t ->
  In t cands /\ forall x, In x cands -> (f x <= f t)%R.
Proof.
  intros (before & after & -> & Hbefore & Hafter). split.
  - apply in_or_app. right. left. reflexivity.
  - intros x Hx. apply in_app_or in Hx. destruct Hx as [Hx|[<-|Hx]].
    + apply Rlt_le, Hbefore, Hx.
    + apply Rle_refl.
    + apply Hafter, Hx.
Qed.

Lemma first_min_keep (f : R -> R) (seen : list R) (tm t : R) :
  first_min f seen tm -> (f tm <= f t)%R -> first_min f (seen ++ [t]) tm.
Proof.
  intros (before & after & -> & Hbefore & Hafter) Hle.
  exists before, (after ++ [t]). split; [|split].
  - rewrite <- app_assoc. reflexivity.
  - assumption.
  - intros x Hx. apply in_app_or in Hx. destruct Hx as [Hx|[<-|[]]].
    + apply Hafter, Hx.
    + assumption.
Qed.

Lemma first_min_replace (f : R -> R) (seen : list R) (tm t : R) :
  first_min f seen tm -> (f t < f tm)%R -> first_min f (seen ++ [t]) t.
Proof.
  intros Hmin Hlt. apply first_min_least in Hmin. destruct Hmin as [_ Hleast].
  exists seen, []. split; [reflexivity|split].
  - intros x Hx. apply Rlt_le_trans with (f tm); [assumption|apply Hleast, Hx].
  - intros x [].
Qed.

Lemma first_max_keep (f : R -> R) (seen : list R) (tm t : R) :
  first_max f seen tm -> (f t <= f tm)%R -> first_max f (seen ++ [t]) tm.
Proof.
  intros (before & after & -> & Hbefore & Hafter) Hle.
  exists before, (after ++ [t]). split; [|split].
  - rewrite <- app_assoc. reflexivity.
  - assumption.
  - intros x Hx. apply in_app_or in Hx. destruct Hx as [Hx|[<-|[]]].
    + apply Hafter, Hx.
    + assumption.
Qed.

Lemma first_max_replace (f : R -> R) (seen : list R) (tm t : R) :
  first_max f seen tm -> (f tm < f t)%R -> first_max f (seen ++ [t]) t.
Proof.
  intros Hmax Hlt. apply first_max_greatest in Hmax. destruct Hmax as [_ Hmost].
  exists seen, []. split; [reflexivity|split].
  - intros x Hx. apply Rle_lt_trans with (f tm); [apply Hmost, Hx|assumption].
  - intros x [].
Qed.

(** One more candidate, taken only when strictly better, keeps the four
    out-parameters extremal over the candidates seen so far. *)
Lemma select_extremal (f : R -> R) (rest : list R) :
  forall (seen : list R) (best : MinMax),
    extremal f seen best ->
    extremal f (seen ++ rest) (select (map (fun t => (t, f t)) rest) best).
Proof.
  induction rest as [|t rest IH]; intros seen best Hbest.
  - rewrite app_nil_r. exact Hbest.
  - replace (seen ++ t :: rest) with ((seen ++ [t]) ++ rest)
      by (rewrite <- app_assoc; reflexivity).
    cbn [map select]. apply IH.
    destruct Hbest as (Hmin & Hfmin & Hmax & Hfmax).
    unfold extremal.
    destruct (Rltb (f t) (min best)) eqn:Hlt;
      [apply Rltb_true in Hlt|apply Rltb_false in Hlt];
      cbn [t_min t_max min max];
      (destruct (Rltb (max best) (f t)) eqn:Hgt;
       [apply Rltb_true in Hgt|apply Rltb_false in Hgt];
       cbn [t_min t_max min max]);
      (split; [reflexivity || assumption
              |split; [|split; [reflexivity || assumption|]]]).
    all: first
      [ solve [apply first_min_replace with (t_min best); (assumption || lra)]
      | solve [apply first_min_keep; (assumption || lra)]
      | solve [apply first_max_replace with (t_max best); (assumption || lra)]
      | solve [apply first_max_keep; (assumption || lra)] ].
Qed.

Lemma extremal_first (f : R -> R) (t : R) :
  extremal f [t] (mkMinMax t t (f t) (f t)).
Proof.
  split; [reflexivity|split; [|split; [reflexivity|]]];
    exists [], []; (split; [reflexivity|split; intros x []]).
Qed.

Lemma evaluate_each_run (s : State) (order : Z) (f : R -> R) (ts : list R) :
  (forall t, evaluate t order s = Ok (f t, s)) ->
  evaluate_each order ts s = Ok (map (fun t => (t, f t)) ts, s).
Proof.
  intros Hf. induction ts as [|t ts IH]; [reflexivity|].
  cbn [evaluate_each map]. unfold bind. rewrite Hf, IH. reflexivity.
Qed.

(** [evaluate] on a well-formed polynomial of a supported order never aborts
    for a non-negative derivative index. *)
Lemma evaluate_run (s : State) (t : R) (order : Z) :
  initialised s -> invariant (this s) -> supported (this s) -> 0 <= order ->
  evaluate t order s = Ok (derivative_at (this s) order t, s).
Proof.
  intros Hinit Hinv Hsup Horder. rewrite evaluate_unfold. unfold derivative_at.
  destruct (Z.geb_spec order (N_ (this s))); [reflexivity|].
  rewrite <- (Z2Nat.id order) at 1 by assumption.
  rewrite Hinit, evaluate_one_value by (assumption || lia).
  reflexivity.
Qed.

Lemma evaluate_run_beyond (s : State) (t : R) (order : Z) :
  order >= N_ (this s) ->
  evaluate t order s = Ok (derivative_at (this s) order t, s).
Proof.
  intros Horder. rewrite evaluate_unfold. unfold derivative_at.
  destruct (Z.geb_spec order (N_ (this s))); [reflexivity|lia].
Qed.

(** The overload that is given the roots, once every evaluation returns. *)
Lemma findMinMax_roots_run (s : State) (t_1 t_2 : R) (order : Z)
    (roots : VectorXcd) :
  (t_1 <= t_2)%R -> 0 <= order ->
  (forall t, evaluate t order s = Ok (derivative_at (this s) order t, s)) ->
  exists e,
    findMinMax_roots t_1 t_2 order roots s = Ok (Some e, s)
    /\ extremal (derivative_at (this s) order) (candidates t_1 t_2 roots) e.
Proof.
  intros Ht Horder Heval.
  eexists. split.
  - unfold findMinMax_roots.
    destruct (Rltb t_2 t_1) eqn:Hlt; [apply Rltb_true in Hlt; exfalso; lra|].
    destruct (Z.ltb_spec order 0); [lia|].
    unfold bind. rewrite Heval.
    rewrite (@evaluate_each_run s order (derivative_at (this s) order))
      by assumption.
    reflexivity.
  - unfold candidates. cbn [List.tl].
    apply (@select_extremal _ _ [t_1]). apply extremal_first.
Qed.

Lemma candidates_in_interval (t_1 t_2 : R) (roots : VectorXcd) (x : R) :
  (t_1 <= t_2)%R -> In x (candidates t_1 t_2 roots) -> (t_1 <= x <= t_2)%R.
Proof.
  intros Ht [<-|[<-|Hx]]; [lra|lra|].
  apply in_map_iff in Hx. destruct Hx as (z & <- & Hz).
  apply filter_In in Hz. destruct Hz as [_ Hz]. unfold admissible in Hz.
  apply andb_prop in Hz. destruct Hz as [Hz Hhi].
  apply andb_prop in Hz. destruct Hz as [_ Hlo].
  apply Rleb_true in Hhi. apply Rleb_true in Hlo. lra.
Qed.

Lemma first_min_ext (f g : R -> R) (cands : list R) (t : R) :
  (forall x, f x = g x) -> first_min f cands t -> first_min g cands t.
Proof.
  intros Hfg (before & after & Hc & Hbefore & Hafter).
  exists before, after. split; [assumption|split]; intros x Hx;
    rewrite <- !Hfg; auto.
Qed.

Lemma first_max_ext (f g : R -> R) (cands : list R) (t : R) :
  (forall x, f x = g x) -> first_max f cands t -> first_max g cands t.
Proof.
  intros Hfg (before & after & Hc & Hbefore & Hafter).
  exists before, after. split; [assumption|split]; intros x Hx;
    rewrite <- !Hfg; auto.
Qed.

Lemma findMinMax_roots_not_false (s s' : State) (t_1 t_2 : R) (order : Z)
    (roots : VectorXcd) :
  (t_1 <= t_2)%R -> 0 <= order ->
  findMinMax_roots t_1 t_2 order roots s <> Ok (None, s').
Proof.
  intros Ht Horder. unfold findMinMax_roots.
  destruct (Rltb t_2 t_1) eqn:Hlt; [apply Rltb_true in Hlt; exfalso; lra|].
  destruct (Z.ltb_spec order 0); [lia|].
  unfold bind. destruct (evaluate t_1 order s) as [[first s1]|]; [|discriminate].
  destruct (evaluate_each _ _ s1) as [[evaluated s2]|]; discriminate.
Qed.

Lemma findMinMax_not_false (s s' : State) (t_1 t_2 : R) (order : Z) :
  (t_1 <= t_2)%R -> 0 <= order ->
  findMinMax t_1 t_2 order s <> Ok (None, s').
Proof.
  intros Ht Horder. unfold findMinMax.
  destruct (Rltb t_2 t_1) eqn:Hlt; [apply Rltb_true in Hlt; exfalso; lra|].
  destruct (Z.ltb_spec order 0); [lia|].
  unfold bind, get_this.
  destruct (order >=? N_ (this s)).
  - apply findMinMax_roots_not_false; assumption.
  - destruct (getCoefficients (order + 1) s) as [[derivative s1]|]; [|discriminate].
    apply findMinMax_roots_not_false; assumption.
Qed.

Lemma findMinMax_false_cases (t_1 t_2 : R) (order : Z) (s : State) :
  ((t_1 > t_2)%R \/ order < 0) -> findMinMax t_1 t_2 order s = Ok (None, s).
Proof.
  intros Hbad. unfold findMinMax.
  destruct (Rltb t_2 t_1) eqn:Hlt; [reflexivity|]. apply Rltb_false in Hlt.
  destruct (Z.ltb_spec order 0); [reflexivity|].
  destruct Hbad; [exfalso; lra|lia].
Qed.

Lemma findMinMax_roots_false_cases (t_1 t_2 : R) (order : Z) (roots : VectorXcd)
    (s : State) :
  ((t_1 > t_2)%R \/ order < 0) ->
  findMinMax_roots t_1 t_2 order roots s = Ok (None, s).
Proof.
  intros Hbad. unfold findMinMax_roots.
  destruct (Rltb t_2 t_1) eqn:Hlt; [reflexivity|]. apply Rltb_false in Hlt.
  destruct (Z.ltb_spec order 0); [reflexivity|].
  destruct Hbad; [exfalso; lra|lia].
Qed.

(** The root-computing overload on a well-formed polynomial of a supported
    order, for an order below N. *)
Lemma findMinMax_run (s : State) (t_1 t_2 : R) (order : Z) :
  initialised s -> invariant (this s) -> supported (this s) ->
  (t_1 <= t_2)%R -> 0 <= order < N_ (this s) ->
  exists derivative e,
    getCoefficients (order + 1) s = Ok (derivative, s)
    /\ findMinMax t_1 t_2 order s = Ok (Some e, s)
    /\ extremal (derivative_at (this s) order)
                (candidates t_1 t_2 (findRootsJenkinsTraub derivative)) e.
Proof.
  intros Hinit Hinv Hsup Ht Horder.
  assert (Hget := @getCoefficients_vector s (Z.to_nat (order + 1))
                    Hinit Hinv Hsup ltac:(lia) ltac:(lia)).
  rewrite Z2Nat.id in Hget by lia.
  eexists. 
  destruct (@findMinMax_roots_run s t_1 t_2 order
              (findRootsJenkinsTraub
                 (map (fun j => nth j (coefficients_ (this s)) 0
                                * INR (falling j (Z.to_nat (order + 1))))%R
                      (seq (Z.to_nat (order + 1))
                           (length (coefficients_ (this s))
                            - Z.to_nat (order + 1)))
                  ++ repeat 0%R (Z.to_nat (order + 1))))
              Ht ltac:(lia)) as (e & Hrun & Hext).
  { intros t. apply evaluate_run; (assumption || lia). }
  exists e. split; [exact Hget|split; [|exact Hext]].
  unfold findMinMax.
  destruct (Rltb t_2 t_1) eqn:Hlt; [apply Rltb_true in Hlt; exfalso; lra|].
  destruct (Z.ltb_spec order 0); [lia|].
  unfold bind at 1. unfold get_this.
  destruct (Z.geb_spec order (N_ (this s))); [lia|].
  unfold bind. rewrite Hget. exact Hrun.
Qed.

Lemma derivative_at_below (p : Polynomial) (order : Z) (t : R) :
  order < N_ p ->
  derivative_at p order t = derivative_value (coefficients_ p) (Z.to_nat order) t.
Proof.
  intros Horder. unfold derivative_at.
  destruct (Z.geb_spec order (N_ p)); [lia|reflexivity].
Qed.

Lemma cubic_value (t : R) :
  derivative_value (coefficients_ cubic) 0 t = (t * t * t)%R.
Proof. unfold derivative_value. simpl. field. Qed.

Lemma cube_at_most_minus_one (x : R) :
  (-1 <= x)%R -> (x * x * x <= -1)%R -> x = (-1)%R.
Proof.
  intros Hlo Hcube.
  assert (Hpos : (0 < x * x - x + 1)%R) by nra.
  assert (Hprod : ((x + 1) * (x * x - x + 1) <= 0)%R) by nra.
  destruct (Rle_lt_dec (x + 1) 0) as [Hle|Hgt]; [lra|].
  assert (0 < (x + 1) * (x * x - x + 1))%R by (apply Rmult_lt_0_compat; assumption).
  lra.
Qed.

Lemma cube_at_least_one (x : R) :
  (x <= 1)%R -> (1 <= x * x * x)%R -> x = 1%R.
Proof.
  intros Hhi Hcube.
  assert (Hpos : (0 < x * x + x + 1)%R) by nra.
  assert (Hprod : (0 <= (x - 1) * (x * x + x + 1))%R) by nra.
  destruct (Rle_lt_dec 0 (x - 1)) as [Hle|Hgt]; [lra|].
  assert (0 < (1 - x) * (x * x + x + 1))%R by (apply Rmult_lt_0_compat; lra).
  nra.
Qed.

(** C6.  [findMinMax] returns the failure result (return value false) if and
    only if t1 > t2 or the order is negative, for both out-of-line overloads.
    For order >= N (and t1 <= t2, order >= 0) it succeeds with the answer of
    the constant zero function, min = max = 0.  For every t1 <= t2 and
    0 <= order it succeeds on a polynomial of a supported order. *)
Theorem findMinMax_failure (s : State) (t_1 t_2 : R) (order : Z) :
  ((exists s', findMinMax t_1 t_2 order s = Ok (None, s'))
   <-> ((t_1 > t_2)%R \/ order < 0))
  /\ (forall roots,
        (exists s', findMinMax_roots t_1 t_2 order roots s = Ok (None, s'))
        <-> ((t_1 > t_2)%R \/ order < 0))
  /\ ((t_1 <= t_2)%R -> 0 <= order -> order >= N_ (this s) ->
      exists e,
        findMinMax t_1 t_2 order s = Ok (Some e, s)
        /\ min e = 0%R /\ max e = 0%R)
  /\ ((t_1 <= t_2)%R -> 0 <= order ->
      initialised s -> invariant (this s) -> supported (this s) ->
      (exists e, findMinMax t_1 t_2 order s = Ok (Some e, s))
      /\ (forall roots,
            exists e, findMinMax_roots t_1 t_2 order roots s = Ok (Some e, s))).
Proof.
  assert (Hcases : ((t_1 > t_2)%R \/ order < 0) \/ ((t_1 <= t_2)%R /\ 0 <= order)).
  { destruct (Rle_lt_dec t_1 t_2); [|left; left; lra].
    destruct (Z_lt_le_dec order 0); [left; right; lia|right; split; assumption]. }
  assert (Hbeyond : (t_1 <= t_2)%R -> 0 <= order -> order >= N_ (this s) ->
      exists e,
        findMinMax t_1 t_2 order s = Ok (Some e, s)
        /\ min e = 0%R /\ max e = 0%R).
  { intros Ht Horder HN.
    destruct (@findMinMax_roots_run s t_1 t_2 order [] Ht Horder)
      as (e & Hrun & Hmin & _ & Hmax & _).
    { intros t. apply evaluate_run_beyond. assumption. }
    exists e. split; [|split].
    - unfold findMinMax.
      destruct (Rltb t_2 t_1) eqn:Hlt; [apply Rltb_true in Hlt; exfalso; lra|].
      destruct (Z.ltb_spec order 0); [lia|].
      unfold bind at 1. unfold get_this.
      destruct (Z.geb_spec order (N_ (this s))); [exact Hrun|lia].
    - rewrite Hmin. unfold derivative_at.
      destruct (Z.geb_spec order (N_ (this s))); [reflexivity|lia].
    - rewrite Hmax. unfold derivative_at.
      destruct (Z.geb_spec order (N_ (this s))); [reflexivity|lia]. }
  split; [|split; [|split; [exact Hbeyond|]]].
  - split.
    + intros [s' Hfalse]. destruct Hcases as [Hbad|[Ht Horder]]; [assumption|].
      exfalso. exact (@findMinMax_not_false s s' t_1 t_2 order Ht Horder Hfalse).
    + intros Hbad. exists s. apply findMinMax_false_cases. assumption.
  - intros roots. split.
    + intros [s' Hfalse]. destruct Hcases as [Hbad|[Ht Horder]]; [assumption|].
      exfalso.
      exact (@findMinMax_roots_not_false s s' t_1 t_2 order roots Ht Horder Hfalse).
    + intros Hbad. exists s. apply findMinMax_roots_false_cases. assumption.
  - intros Ht Horder Hinit Hinv Hsup. split.
    + destruct (Z_lt_le_dec order (N_ (this s))) as [Hlt|Hge].
      * destruct (@findMinMax_run s t_1 t_2 order Hinit Hinv Hsup Ht
                    ltac:(lia)) as (derivative & e & _ & Hrun & _).
        exists e. assumption.
      * destruct (Hbeyond Ht Horder ltac:(lia)) as (e & Hrun & _).
        exists e. assumption.
    + intros roots.
      destruct (@findMinMax_roots_run s t_1 t_2 order roots Ht Horder)
        as (e & Hrun & _).
      { intros t. apply evaluate_run; assumption. }
      exists e. assumption.
Qed.

(** ** The table, the invariant and the frame *)

(** C4.  The basis table is square of side kMaxN and, for every row d and
    column j with 0 <= d, j < kMaxN, holds at (d, j) the falling factorial
    j!/(j-d)! = j (j-1) ... (j-d+1) when j >= d, and 0 when j < d.  It is
    what [computeBaseCoefficients(kMaxN)] built, and no call of the class
    changes it. *)
Theorem basis_table_falling_factorial :
  initial_base_coefficients = computeBaseCoefficients kMaxN
  /\ Z.of_nat (length initial_base_coefficients) = kMaxN
  /\ (forall row, In row initial_base_coefficients -> size row = kMaxN)
  /\ (forall d j : nat,
        Z.of_nat d < kMaxN -> Z.of_nat j < kMaxN ->
        entry initial_base_coefficients (Z.of_nat d) (Z.of_nat j)
        = Some (if (d <=? j)%nat then INR (fact j) / INR (fact (j - d)) else 0)%R
        /\ ((d <= j)%nat ->
            (INR (fact j) / INR (fact (j - d)))%R = INR (falling j d)))
  /\ (forall (c : call) (s : State) (v : value) (s' : State),
        exec c s = Ok (v, s') -> base_coefficients_ s' = base_coefficients_ s).
Proof.
  split; [reflexivity|split; [reflexivity|split; [|split]]].
  - intros row Hrow. unfold initial_base_coefficients, computeBaseCoefficients in Hrow.
    apply in_map_iff in Hrow. destruct Hrow as (d & <- & _).
    unfold size. rewrite length_map, length_seq. reflexivity.
  - intros d j Hd Hj. split.
    + rewrite entry_initial by assumption. f_equal.
      destruct (Nat.leb_spec d j) as [Hdj|Hjd].
      * apply falling_quotient. assumption.
      * rewrite falling_above by assumption. reflexivity.
    + intros Hdj. symmetry. apply falling_quotient. assumption.
  - intros c s v s' Hrun. apply (exec_keeps_table_and_order c s Hrun).
Qed.

(** C9.  The length of the coefficient sequence equals the order N from
    construction through every call: [Polynomial(N)] creates N zero
    coefficients, [Polynomial(N, coeffs)] and [setCoefficients(coeffs)] fail
    when the length of coeffs differs from N and store coeffs otherwise, and
    no call changes N. *)
Theorem coefficient_length_invariant :
  (forall n : Z,
      0 <= n ->
      Polynomial_N n = Ok (mkPolynomial n (repeat 0%R (Z.to_nat n)))
      /\ invariant (mkPolynomial n (repeat 0%R (Z.to_nat n))))
  /\ (forall (n : Z) (coeffs : VectorXd),
        size coeffs <> n -> Polynomial_N_coeffs n coeffs = Fatal)
  /\ (forall (n : Z) (coeffs : VectorXd),
        size coeffs = n ->
        Polynomial_N_coeffs n coeffs = Ok (mkPolynomial n coeffs)
        /\ invariant (mkPolynomial n coeffs))
  /\ (forall (s : State) (coeffs : VectorXd),
        size coeffs <> N_ (this s) -> setCoefficients coeffs s = Fatal)
  /\ (forall (s : State) (coeffs : VectorXd),
        size coeffs = N_ (this s) ->
        setCoefficients coeffs s
        = Ok (tt, mkState (base_coefficients_ s)
                          (mkPolynomial (N_ (this s)) coeffs))
        /\ invariant (mkPolynomial (N_ (this s)) coeffs))
  /\ (forall (c : call) (s : State) (v : value) (s' : State),
        invariant (this s) -> exec c s = Ok (v, s') ->
        invariant (this s') /\ N_ (this s') = N_ (this s)).
Proof.
  split; [|split; [|split; [|split; [|split]]]].
  - intros n Hn. unfold Polynomial_N, zero_vector, invariant, size.
    destruct (Z.ltb_spec n 0); [lia|].
    split; [reflexivity|]. cbn [coefficients_ N_]. rewrite repeat_length. lia.
  - intros n coeffs Hlen. unfold Polynomial_N_coeffs.
    destruct (Z.eqb_spec n (size coeffs)); [congruence|reflexivity].
  - intros n coeffs Hlen. unfold Polynomial_N_coeffs.
    destruct (Z.eqb_spec n (size coeffs)); [|congruence].
    split; [reflexivity|exact Hlen].
  - intros s coeffs Hlen. unfold setCoefficients. run_monad.
    destruct (Z.eqb_spec (N_ (this s)) (size coeffs)); [congruence|reflexivity].
  - intros s coeffs Hlen. unfold setCoefficients. run_monad.
    destruct (Z.eqb_spec (N_ (this s)) (size coeffs)); [|congruence].
    split; [reflexivity|exact Hlen].
  - intros c s v s' Hinv Hrun.
    split; [|apply (exec_keeps_table_and_order c s Hrun)].
    destruct (is_query c) eqn:Hq.
    + apply (read_only_query c Hq) in Hrun. subst s'. assumption.
    + destruct c; try discriminate Hq. cbn [exec] in Hrun.
      unfold returning, bind in Hrun.
      destruct (setCoefficients coeffs s) as [[u s1]|] eqn:Hset; [|discriminate].
      apply setCoefficients_returns in Hset. destruct Hset as [Hlen ->].
      inversion Hrun. unfold invariant. cbn [this coefficients_ N_]. congruence.
Qed.

(** C10.  Every query -- [getCoefficients], both forms of [evaluate],
    [computeRoots], [findMinMax], [N()], the equality operators and the
    static [baseCoeffsWithTime] -- leaves the order and the stored
    coefficients of the polynomial unchanged; the one call that is not a
    query is [setCoefficients]. *)
Theorem queries_leave_polynomial_unchanged :
  (forall (c : call) (s : State) (v : value) (s' : State),
      is_query c = true -> exec c s = Ok (v, s') ->
      N_ (this s') = N_ (this s)
      /\ coefficients_ (this s') = coefficients_ (this s))
  /\ (forall c : call,
        is_query c = false -> exists coeffs, c = call_setCoefficients coeffs).
Proof.
  split.
  - intros c s v s' Hq Hrun.
    apply (read_only_query c Hq) in Hrun. subst s'. split; reflexivity.
  - intros c Hq. destruct c; try discriminate Hq.
    exists coeffs. reflexivity.
Qed.

(** ** Further properties: the values of the derivatives *)

Lemma sigma_zero (lo len : nat) (f : nat -> R) :
  (forall k, (lo <= k < lo + len)%nat -> f k = 0%R) -> sigma lo len f = 0%R.
Proof.
  revert lo; induction len as [|len IH]; intros lo Hf; [reflexivity|].
  simpl. rewrite (Hf lo) by lia. rewrite IH by (intros; apply Hf; lia). ring.
Qed.

Lemma sigma_split (lo a b : nat) (f : nat -> R) :
  sigma lo (a + b) f = (sigma lo a f + sigma (lo + a) b f)%R.
Proof.
  revert lo; induction a as [|a IH]; intros lo.
  - simpl. rewrite Nat.add_0_r. ring.
  - simpl. rewrite IH. replace (S lo + a)%nat with (lo + S a)%nat by lia. ring.
Qed.

Lemma sigma_shift (lo len d : nat) (f : nat -> R) :
  sigma (lo + d) len f = sigma lo len (fun j => f (j + d)%nat).
Proof.
  revert lo; induction len as [|len IH]; intros lo; [reflexivity|].
  simpl. f_equal. apply (IH (S lo)).
Qed.

Lemma derivative_value_at_zero (c : VectorXd) (d : nat) :
  (d < length c)%nat ->
  derivative_value c d 0 = (nth d c 0 * INR (fact d))%R.
Proof.
  intros Hd. unfold derivative_value.
  replace (length c - d)%nat with (S (length c - S d)) by lia.
  cbn [sigma]. rewrite sigma_zero.
  - rewrite Nat.sub_diag. simpl. field.
  - intros k Hk. rewrite pow_i by lia. ring.
Qed.

Lemma derivative_value_top (c : VectorXd) (d : nat) (t : R) :
  length c = S d ->
  derivative_value c d t = (nth d c 0 * INR (fact d))%R.
Proof.
  intros Hlen. unfold derivative_value. rewrite Hlen.
  replace (S d - d)%nat with 1%nat by lia.
  cbn [sigma]. rewrite Nat.sub_diag. simpl. field.
Qed.

Lemma derivative_value_beyond (c : VectorXd) (d : nat) (t : R) :
  (length c <= d)%nat -> derivative_value c d t = 0%R.
Proof.
  intros Hd. unfold derivative_value.
  replace (length c - d)%nat with 0%nat by lia. reflexivity.
Qed.

(** A finite sum of monomials a_j x^(e_j) is differentiable term by term. *)
Lemma derivable_sigma (a : nat -> R) (e : nat -> nat) (len : nat) :
  forall (lo : nat) (t : R),
    derivable_pt_lim (fun x => sigma lo len (fun j => a j * x ^ e j)%R) t
      (sigma lo len (fun j => a j * (INR (e j) * t ^ Nat.pred (e j)))%R).
Proof.
  induction len as [|len IH]; intros lo t.
  - simpl. apply (derivable_pt_lim_const 0%R).
  - cbn [sigma].
    apply (derivable_pt_lim_plus
             (fun x => a lo * x ^ e lo)%R
             (fun x => sigma (S lo) len (fun j => a j * x ^ e j)%R)).
    + apply (derivable_pt_lim_scal (fun x => x ^ e lo)%R (a lo)).
      apply derivable_pt_lim_pow.
    + apply IH.
Qed.

Lemma fact_ratio_step (j d : nat) :
  (d < j)%nat ->
  (INR (fact j) / INR (fact (j - d)) * INR (j - d))%R
  = (INR (fact j) / INR (fact (j - S d)))%R.
Proof.
  intros Hdj.
  replace (j - d)%nat with (S (j - S d)) by lia.
  change (fact (S (j - S d))) with (S (j - S d) * fact (j - S d))%nat.
  rewrite mult_INR. field. split; [apply INR_fact_neq_0|].
  apply not_0_INR. lia.
Qed.

(** The formula for the (d+1)-th derivative is the derivative, in the sense
    of real analysis, of the formula for the d-th. *)
Lemma derivative_value_derivative (c : VectorXd) (d : nat) (t : R) :
  derivable_pt_lim (derivative_value c d) t (derivative_value c (S d) t).
Proof.
  replace (derivative_value c (S d) t)
    with (sigma d (length c - d)
            (fun j => nth j c 0 * (INR (fact j) / INR (fact (j - d)))
                      * (INR (j - d) * t ^ Nat.pred (j - d)))%R).
  - apply (derivable_sigma
             (fun j => nth j c 0 * (INR (fact j) / INR (fact (j - d))))%R
             (fun j => (j - d)%nat)).
  - unfold derivative_value.
    destruct (Nat.le_gt_cases (length c) d) as [Hle|Hgt].
    + replace (length c - d)%nat with 0%nat by lia.
      replace (length c - S d)%nat with 0%nat by lia. reflexivity.
    + replace (length c - d)%nat with (S (length c - S d)) by lia.
      cbn [sigma]. rewrite Nat.sub_diag. simpl INR.
      rewrite (sigma_ext _ _
                 (fun j => nth j c 0 * (INR (fact j) / INR (fact (j - S d)))
                           * t ^ (j - S d))%R).
      * ring.
      * intros k Hk. rewrite <- (@fact_ratio_step k d) by lia.
        replace (Nat.pred (k - d)) with (k - S d)%nat by lia. ring.
Qed.

Lemma derivative_at_derivative (p : Polynomial) (d : nat) (t : R) :
  invariant p ->
  derivable_pt_lim (derivative_at p (Z.of_nat d)) t
                   (derivative_at p (Z.of_nat d + 1) t).
Proof.
  unfold invariant, size. intros Hinv.
  unfold derivative_at.
  destruct (Z.geb_spec (Z.of_nat d) (N_ p)) as [Hge|Hlt].
  - destruct (Z.geb_spec (Z.of_nat d + 1) (N_ p)); [|lia].
    apply (derivable_pt_lim_const 0%R).
  - rewrite Nat2Z.id.
    replace (if Z.of_nat d + 1 >=? N_ p
             then 0%R
             else derivative_value (coefficients_ p) (Z.to_nat (Z.of_nat d + 1)) t)
      with (derivative_value (coefficients_ p) (S d) t).
    + apply derivative_value_derivative.
    + destruct (Z.geb_spec (Z.of_nat d + 1) (N_ p)).
      * apply derivative_value_beyond. lia.
      * f_equal. lia.
Qed.

(** X1.  At t = 0 the d-th derivative of a polynomial of a supported order
    is d! times its d-th coefficient: [evaluate(0, d)] returns
    coefficients[d] * d!. *)
Theorem evaluate_at_zero (s : State) (d : nat) :
  initialised s -> invariant (this s) -> supported (this s) ->
  Z.of_nat d < N_ (this s) ->
  evaluate 0 (Z.of_nat d) s
  = Ok ((nth d (coefficients_ (this s)) 0 * INR (fact d))%R, s).
Proof.
  intros Hinit Hinv Hsup Hd.
  rewrite evaluate_unfold.
  destruct (Z.geb_spec (Z.of_nat d) (N_ (this s))); [lia|].
  rewrite Hinit, evaluate_one_value by assumption.
  rewrite derivative_value_at_zero; [reflexivity|].
  unfold invariant, size in Hinv. lia.
Qed.

(** X2.  The highest derivative that is not identically zero is constant:
    for every t, [evaluate(t, N-1)] returns coefficients[N-1] * (N-1)!. *)
Theorem evaluate_top_derivative_constant (s : State) (t : R) (d : nat) :
  initialised s -> invariant (this s) -> supported (this s) ->
  Z.of_nat d + 1 = N_ (this s) ->
  evaluate t (Z.of_nat d) s
  = Ok ((nth d (coefficients_ (this s)) 0 * INR (fact d))%R, s).
Proof.
  intros Hinit Hinv Hsup Hd.
  rewrite evaluate_unfold.
  destruct (Z.geb_spec (Z.of_nat d) (N_ (this s))); [lia|].
  rewrite Hinit, evaluate_one_value by (assumption || lia).
  rewrite derivative_value_top; [reflexivity|].
  unfold invariant, size in Hinv. lia.
Qed.

(** X3.  What [evaluate(t, d+1)] returns is the derivative with respect to t
    of what [evaluate(t, d)] returns, for every d >= 0 (from d = N-1 on the
    derivative is zero). *)
Theorem evaluate_successive_derivatives (s : State) (d : nat) :
  initialised s -> invariant (this s) -> supported (this s) ->
  exists f g : R -> R,
    (forall t, evaluate t (Z.of_nat d) s = Ok (f t, s))
    /\ (forall t, evaluate t (Z.of_nat d + 1) s = Ok (g t, s))
    /\ (forall t, derivable_pt_lim f t (g t)).
Proof.
  intros Hinit Hinv Hsup.
  exists (derivative_at (this s) (Z.of_nat d)),
         (derivative_at (this s) (Z.of_nat d + 1)).
  split; [|split].
  - intros t. apply evaluate_run; (assumption || lia).
  - intros t. apply evaluate_run; (assumption || lia).
  - intros t. apply derivative_at_derivative. assumption.
Qed.


(** ** Further properties: constraint rows *)


Lemma baseCoeffsWithTime_spec (s : State) (n d : nat) (t : R) :
  initialised s -> Z.of_nat n <= kMaxN -> (d < n)%nat ->
  exists v,
    baseCoeffsWithTime (Z.of_nat n) (Z.of_nat d) t s = Ok (v, s)
    /\ length v = n
    /\ nth_error v d = Some (INR (falling d d))
    /\ (forall j, (j < d)%nat -> nth_error v j = Some 0%R)
    /\ (forall j, (d < j < n)%nat ->
          nth_error v j
          = Some (if Rltb (Rabs t) epsilon then 0
                  else INR (falling j d) * t ^ (j - d))%R).
Proof.
  intros Hinit Hn Hd.
  destruct (@baseCoeffsWithTime_into_spec s n d t (repeat 0%R n) Hinit Hn Hd)
    as (v & Hrun & Hrest).
  exists v. split; [|exact Hrest].
  unfold baseCoeffsWithTime. run_monad.
  unfold zero_vector at 1. destruct (Z.ltb_spec (Z.of_nat n) 0); [lia|].
  rewrite Nat2Z.id. exact Hrun.
Qed.


Lemma nth_of_nth_error (v : VectorXd) (j : nat) (x : R) :
  nth_error v j = Some x -> nth j v 0%R = x.
Proof. intros H. apply nth_error_nth. assumption. Qed.



(** ** Further properties: derivative coefficients *)

Lemma derivative_coefficients_length (c : VectorXd) (d : nat) :
  (d <= length c)%nat -> length (derivative_coefficients c d) = length c.
Proof.
  intros Hd. unfold derivative_coefficients.
  rewrite length_app, length_map, length_seq, repeat_length. lia.
Qed.

Lemma nth_derivative_coefficients (c : VectorXd) (d i : nat) :
  (d <= length c)%nat ->
  nth i (derivative_coefficients c d) 0%R
  = if (i <? length c - d)%nat
    then (nth (i + d) c 0 * INR (falling (i + d) d))%R
    else 0%R.
Proof.
  intros Hd. unfold derivative_coefficients.
  destruct (Nat.ltb_spec i (length c - d)) as [Hlt|Hge].
  - apply nth_of_nth_error.
    rewrite nth_error_app1 by (rewrite length_map, length_seq; lia).
    rewrite nth_error_map, nth_error_seq.
    destruct (Nat.ltb_spec i (length c - d)) as [_|]; [|lia].
    cbn [option_map]. replace (d + i)%nat with (i + d)%nat by lia. reflexivity.
  - destruct (Nat.lt_ge_cases i (length c)) as [Hin|Hout].
    + apply nth_of_nth_error.
      rewrite nth_error_app2 by (rewrite length_map, length_seq; lia).
      rewrite length_map, length_seq. apply nth_error_repeat_lt. lia.
    + apply nth_overflow.
      rewrite length_app, length_map, length_seq, repeat_length. lia.
Qed.

Lemma derivative_coefficients_zero (c : VectorXd) :
  derivative_coefficients c 0 = c.
Proof.
  apply (nth_ext _ _ 0%R 0%R).
  - apply derivative_coefficients_length. lia.
  - intros i Hi. rewrite derivative_coefficients_length in Hi by lia.
    rewrite nth_derivative_coefficients by lia.
    destruct (Nat.ltb_spec i (length c - 0)) as [_|]; [|lia].
    rewrite Nat.add_0_r. simpl. ring.
Qed.

(** [getCoefficients(d)] for every d with 0 <= d <= N. *)
Lemma getCoefficients_run (s : State) (d : nat) :
  initialised s -> invariant (this s) -> supported (this s) ->
  Z.of_nat d <= N_ (this s) ->
  getCoefficients (Z.of_nat d) s
  = Ok (derivative_coefficients (coefficients_ (this s)) d, s).
Proof.
  intros Hinit Hinv Hsup Hd. destruct d as [|d].
  - rewrite derivative_coefficients_zero.
    unfold getCoefficients. run_monad.
    change (Z.of_nat 0) with 0 in *.
    destruct (Z.leb_spec 0 (N_ (this s))); [reflexivity|lia].
  - apply getCoefficients_vector; (assumption || lia).
Qed.

Lemma falling_add (a b j : nat) :
  falling j (a + b) = (falling j a * falling (j - a) b)%nat.
Proof.
  revert j; induction a as [|a IH]; intros j.
  - simpl. rewrite Nat.sub_0_r. lia.
  - change (falling j (S a + b)) with (j * falling (Nat.pred j) (a + b))%nat.
    change (falling j (S a)) with (j * falling (Nat.pred j) a)%nat.
    rewrite IH. replace (Nat.pred j - a)%nat with (j - S a)%nat by lia.
    rewrite Nat.mul_assoc. reflexivity.
Qed.


(** The k-th derivative of the polynomial with the coefficients of the d-th
    derivative is the (d+k)-th derivative. *)
Lemma derivative_value_of_derivative_coefficients (c : VectorXd) (d k : nat)
    (t : R) :
  (d <= length c)%nat ->
  derivative_value (derivative_coefficients c d) k t
  = derivative_value c (d + k) t.
Proof.
  intros Hd. unfold derivative_value at 1.
  rewrite derivative_coefficients_length by assumption.
  destruct (Nat.le_gt_cases (length c) (d + k)) as [Hbeyond|Hbelow].
  - rewrite derivative_value_beyond by assumption.
    apply sigma_zero. intros j Hj.
    rewrite nth_derivative_coefficients by assumption.
    destruct (Nat.ltb_spec j (length c - d)); [lia|ring].
  - replace (length c - k)%nat with ((length c - (d + k)) + d)%nat by lia.
    rewrite sigma_split, (@sigma_zero (k + (length c - (d + k))) d).
    + unfold derivative_value.
      rewrite (Nat.add_comm d k), (sigma_shift k _ d), Rplus_0_r.
      apply sigma_ext. intros j Hj.
      rewrite nth_derivative_coefficients by assumption.
      destruct (Nat.ltb_spec j (length c - d)); [|lia].
      rewrite <- (@falling_quotient k j) by lia.
      rewrite <- (@falling_quotient (k + d) (j + d)) by lia.
      rewrite (Nat.add_comm k d), (falling_add d k), mult_INR.
      replace (j + d - d)%nat with j by lia.
      replace (j + d - (d + k))%nat with (j - k)%nat by lia. ring.
    + intros j Hj. rewrite nth_derivative_coefficients by assumption.
      destruct (Nat.ltb_spec j (length c - d)); [lia|ring].
Qed.




(** ** Further properties: storing coefficients *)

(** X7.  Coefficients round-trip: after [setCoefficients(coeffs)] with a
    vector of length N, [getCoefficients(0)] returns exactly that vector and
    the order is the same; likewise for a polynomial freshly constructed by
    [Polynomial(N, coeffs)].  Neither depends on the table or on kMaxN. *)
Theorem coefficients_round_trip :
  (forall (s : State) (coeffs : VectorXd),
      size coeffs = N_ (this s) ->
      (setCoefficients coeffs ;; getCoefficients 0) s
      = Ok (coeffs,
            mkState (base_coefficients_ s) (mkPolynomial (N_ (this s)) coeffs)))
  /\ (forall (n : Z) (coeffs : VectorXd) (B : MatrixXd),
        size coeffs = n ->
        exists p,
          Polynomial_N_coeffs n coeffs = Ok p
          /\ N_ p = n
          /\ getCoefficients 0 (mkState B p) = Ok (coeffs, mkState B p)).
Proof.
  split.
  - intros s coeffs Hlen. unfold setCoefficients, getCoefficients. run_monad.
    destruct (Z.eqb_spec (N_ (this s)) (size coeffs)); [|congruence].
    cbn [this N_ coefficients_ base_coefficients_].
    destruct (Z.leb_spec 0 (N_ (this s))); [reflexivity|].
    unfold size in Hlen. lia.
  - intros n coeffs B Hlen. exists (mkPolynomial n coeffs).
    split; [|split; [reflexivity|]].
    + unfold Polynomial_N_coeffs.
      destruct (Z.eqb_spec n (size coeffs)); [reflexivity|congruence].
    + unfold getCoefficients. run_monad. cbn [this N_ coefficients_].
      destruct (Z.leb_spec 0 n); [reflexivity|].
      unfold size in Hlen. lia.
Qed.

Lemma derivative_value_zero_polynomial (n d : nat) (t : R) :
  derivative_value (repeat 0%R n) d t = 0%R.
Proof.
  unfold derivative_value. apply sigma_zero. intros j _.
  rewrite nth_repeat. ring.
Qed.

Lemma derivative_coefficients_zero_polynomial (n d : nat) :
  (d <= n)%nat -> derivative_coefficients (repeat 0%R n) d = repeat 0%R n.
Proof.
  intros Hd. apply (nth_ext _ _ 0%R 0%R).
  - apply derivative_coefficients_length. rewrite repeat_length. assumption.
  - intros i _.
    rewrite nth_derivative_coefficients by (rewrite repeat_length; assumption).
    rewrite !nth_repeat. destruct (_ <? _)%nat; [ring|reflexivity].
Qed.

(** X8.  The polynomial [Polynomial(N)] of a supported order is the zero
    polynomial: every [evaluate(t, d)] with d >= 0 returns 0, and every
    [getCoefficients(d)] with 0 <= d <= N returns N zeros. *)
Theorem zero_polynomial (n : nat) :
  Z.of_nat n <= kMaxN ->
  exists p,
    Polynomial_N (Z.of_nat n) = Ok p
    /\ (forall (t : R) (d : Z),
          0 <= d ->
          evaluate t d (mkState initial_base_coefficients p)
          = Ok (0%R, mkState initial_base_coefficients p))
    /\ (forall d : nat,
          (d <= n)%nat ->
          getCoefficients (Z.of_nat d) (mkState initial_base_coefficients p)
          = Ok (repeat 0%R n, mkState initial_base_coefficients p)).
Proof.
  intros Hn. exists (mkPolynomial (Z.of_nat n) (repeat 0%R n)).
  assert (Hinv : invariant (mkPolynomial (Z.of_nat n) (repeat 0%R n))).
  { unfold invariant, size. cbn [coefficients_ N_]. rewrite repeat_length.
    reflexivity. }
  split; [|split].
  - unfold Polynomial_N, zero_vector.
    destruct (Z.ltb_spec (Z.of_nat n) 0); [lia|]. rewrite Nat2Z.id. reflexivity.
  - intros t d Hd.
    rewrite evaluate_run; [|reflexivity|exact Hinv|exact Hn|exact Hd].
    unfold derivative_at. cbn [this N_ coefficients_].
    destruct (d >=? Z.of_nat n); [reflexivity|].
    rewrite derivative_value_zero_polynomial. reflexivity.
  - intros d Hd.
    rewrite getCoefficients_run;
      [|reflexivity|exact Hinv|exact Hn|cbn [this N_]; lia].
    cbn [this coefficients_].
    rewrite derivative_coefficients_zero_polynomial by assumption.
    reflexivity.
Qed.

(** ** Further properties: where the functions have no result *)

Lemma traverse_none {A B} (f : A -> option B) (l : list A) (a : A) :
  In a l -> f a = None -> traverse f l = None.
Proof.
  induction l as [|x l IH]; intros Hin Hf; [destruct Hin|].
  cbn [traverse]. destruct Hin as [->|Hin].
  - rewrite Hf. reflexivity.
  - rewrite (IH Hin Hf). destruct (f x); reflexivity.
Qed.

Lemma In_Zseq (z lo : Z) (len : nat) :
  lo <= z < lo + Z.of_nat len -> In z (Zseq lo len).
Proof.
  revert lo; induction len as [|len IH]; intros lo Hz; [lia|].
  cbn [Zseq]. destruct (Z.eq_dec lo z) as [->|Hne]; [left; reflexivity|].
  right. apply IH. lia.
Qed.

(** The table has no column kMaxN or beyond. *)
Lemma entry_initial_outside (r c : Z) :
  kMaxN <= c -> entry initial_base_coefficients r c = None.
Proof.
  intros Hc. unfold entry. destruct (r <? 0); [reflexivity|].
  destruct (nth_error initial_base_coefficients (Z.to_nat r)) as [row|] eqn:Hrow;
    [|reflexivity].
  apply nth_error_In in Hrow.
  unfold initial_base_coefficients, computeBaseCoefficients in Hrow.
  apply in_map_iff in Hrow. destruct Hrow as (d & <- & _).
  unfold coeff. destruct (Z.ltb_spec c 0); [reflexivity|].
  apply nth_error_None. rewrite length_map, length_seq.
  unfold kMaxN in *. lia.
Qed.

Lemma block_row_outside (r c n : Z) :
  0 < n -> kMaxN < c + n -> 0 <= c ->
  block_row initial_base_coefficients r c n = None.
Proof.
  intros Hn Hout Hc. unfold block_row.
  destruct (Z.ltb_spec n 0); [lia|].
  apply (@traverse_none _ _ _ _ (c + n - 1)).
  - apply In_Zseq. lia.
  - apply entry_initial_outside. lia.
Qed.

Lemma powers_loop_outside (B : MatrixXd) (derivative : Z) (t : R) (n : nat) :
  forall (j : Z) (t_power : R) (coeffs : VectorXd) (k : Z),
    j <= k < j + Z.of_nat n -> entry B derivative k = None ->
    powers_loop B derivative t n j t_power coeffs = None.
Proof.
  induction n as [|n IH]; intros j t_power coeffs k Hk Hnone; [lia|].
  cbn [powers_loop].
  destruct (entry B derivative j) as [b|] eqn:Hb; [|reflexivity].
  destruct (set_coeff coeffs j (b * t_power)%R) as [coeffs'|]; [|reflexivity].
  apply (IH _ _ _ k); [|assumption].
  destruct (Z.eq_dec j k) as [->|Hne]; [congruence|lia].
Qed.

(** X10.  The order is not checked against kMaxN when a polynomial is
    constructed, but the table has kMaxN columns: on a polynomial of an order
    above kMaxN, [evaluate(t, d)] for 0 <= d < N, the vector form for a
    non-empty result, [getCoefficients(d)] for 0 < d < N and
    [baseCoeffsWithTime(N, d, t)] for |t| >= epsilon have no result; only
    [evaluate] with d >= N, [getCoefficients(0)] and the vector form on an
    empty result return. *)
Theorem order_above_kMaxN_has_no_result (s : State) :
  initialised s -> invariant (this s) -> kMaxN < N_ (this s) ->
  (forall (t : R) (d : Z), 0 <= d < N_ (this s) -> evaluate t d s = Fatal)
  /\ (forall (t : R) (result : VectorXd),
        0 < size result <= N_ (this s) -> evaluate_vector t result s = Fatal)
  /\ (forall d : Z, 0 < d < N_ (this s) -> getCoefficients d s = Fatal)
  /\ (forall (t : R) (d : Z),
        0 <= d < N_ (this s) -> ~ (Rabs t < epsilon)%R ->
        baseCoeffsWithTime (N_ (this s)) d t s = Fatal)
  /\ (forall t : R, evaluate_vector t [] s = Ok ([], s))
  /\ getCoefficients 0 s = Ok (coefficients_ (this s), s).
Proof.
  intros Hinit Hinv HN.
  assert (Hone : forall t d, 0 <= d < N_ (this s) ->
                 evaluate_one (base_coefficients_ s) (this s) t d = None).
  { intros t d Hd. unfold evaluate_one.
    rewrite Hinit, block_row_outside by lia. reflexivity. }
  split; [|split; [|split; [|split; [|split]]]].
  - intros t d Hd. rewrite evaluate_unfold.
    destruct (Z.geb_spec d (N_ (this s))); [lia|].
    rewrite Hone by assumption. reflexivity.
  - intros t result Hsize. unfold evaluate_vector. run_monad.
    destruct (Z.leb_spec (size result) (N_ (this s))); [|lia].
    unfold size in *.
    destruct result as [|x result]; [simpl in Hsize; lia|].
    rewrite Nat2Z.id. cbn [length evaluate_loop].
    rewrite Hone by lia. reflexivity.
  - intros d Hd. unfold getCoefficients. run_monad.
    destruct (Z.leb_spec d (N_ (this s))); [|lia].
    destruct (Z.eqb_spec d 0); [lia|].
    unfold invariant, size in Hinv.
    unfold zero_vector. destruct (Z.ltb_spec (N_ (this s)) 0); [lia|].
    unfold tail, size. rewrite Hinv.
    destruct (Z.ltb_spec (N_ (this s) - d) 0); [lia|].
    destruct (Z.ltb_spec (N_ (this s)) (N_ (this s) - d)); [lia|].
    cbn [orb]. rewrite Hinit, block_row_outside by lia. reflexivity.
  - intros t d Hd Heps. unfold baseCoeffsWithTime, baseCoeffsWithTime_into.
    run_monad. unfold zero_vector.
    destruct (Z.ltb_spec (N_ (this s)) 0); [lia|].
    destruct (Z.ltb_spec d (N_ (this s))); [|lia].
    destruct (Z.geb_spec d 0); [|lia].
    rewrite Hinit.
    destruct (entry initial_base_coefficients d d) as [b|] eqn:Hdiag;
      [|reflexivity].
    assert (Hcol : d < kMaxN).
    { destruct (Z_lt_le_dec d kMaxN) as [Hlt|Hge]; [assumption|].
      rewrite entry_initial_outside in Hdiag by assumption. discriminate Hdiag. }
    destruct (set_coeff _ d b) as [coeffs|]; [|reflexivity].
    destruct (Rltb (Rabs t) epsilon) eqn:Hb;
      [apply Rltb_true in Hb; contradiction|].
    rewrite (@powers_loop_outside _ _ _ _ _ _ _ kMaxN);
      [reflexivity|lia|apply entry_initial_outside; lia].
  - intros t. unfold evaluate_vector. run_monad.
    destruct (Z.leb_spec (size []) (N_ (this s))); [reflexivity|].
    unfold kMaxN, size in *. simpl in *. lia.
  - unfold getCoefficients. run_monad.
    destruct (Z.leb_spec 0 (N_ (this s))); [reflexivity|].
    unfold kMaxN in HN. lia.
Qed.

(** X11.  For every N up to kMaxN, [baseCoeffsWithTime(N, d, t)] returns a
    row exactly when 0 <= d < N: the two CHECKs are the only way it fails. *)
Theorem baseCoeffsWithTime_returns_iff (s : State) (n d : Z) (t : R) :
  initialised s -> n <= kMaxN ->
  ((exists v s', baseCoeffsWithTime n d t s = Ok (v, s')) <-> 0 <= d < n).
Proof.
  intros Hinit Hn. split.
  - intros (v & s' & Hrun).
    unfold baseCoeffsWithTime, baseCoeffsWithTime_into in Hrun.
    unfold bind at 1 in Hrun.
    destruct (eigen (zero_vector n) s) as [[c s1]|]; [|discriminate Hrun].
    unfold bind at 1 in Hrun. unfold get_base_coefficients in Hrun.
    unfold bind at 1 in Hrun. unfold CHECK at 1 in Hrun.
    destruct (Z.ltb_spec d n); [|discriminate Hrun].
    unfold ret at 1 in Hrun.
    unfold bind at 1 in Hrun. unfold CHECK at 1 in Hrun.
    destruct (Z.geb_spec d 0); [lia|discriminate Hrun].
  - intros Hd.
    destruct (@baseCoeffsWithTime_spec s (Z.to_nat n) (Z.to_nat d) t Hinit
                ltac:(lia) ltac:(lia)) as (v & Hrun & _).
    rewrite !Z2Nat.id in Hrun by lia.
    exists v, s. exact Hrun.
Qed.

(** X12.  A negative derivative index is not rejected by a CHECK in
    [evaluate] or [getCoefficients], and neither has a result for it:
    [evaluate] would read a row above the table, [getCoefficients] a tail
    longer than the coefficient vector. *)
Theorem negative_derivative_has_no_result (s : State) (d : Z) :
  invariant (this s) -> d < 0 ->
  (forall t : R, evaluate t d s = Fatal) /\ getCoefficients d s = Fatal.
Proof.
  unfold invariant, size. intros Hinv Hd. split.
  - intros t. rewrite evaluate_unfold.
    destruct (Z.geb_spec d (N_ (this s))); [lia|].
    unfold evaluate_one, block_row.
    destruct (Z.ltb_spec (N_ (this s)) 0); [lia|].
    destruct (Z.to_nat (N_ (this s))) as [|m] eqn:Hm.
    + cbn [Zseq traverse]. unfold coeff at 1.
      destruct (Z.ltb_spec (N_ (this s) - 1) 0); [reflexivity|lia].
    + rewrite (@traverse_none _ _ _ _ 0); [reflexivity|left; reflexivity|].
      unfold entry. destruct (Z.ltb_spec d 0); [reflexivity|lia].
  - unfold getCoefficients. run_monad.
    destruct (Z.leb_spec d (N_ (this s))); [|lia].
    destruct (Z.eqb_spec d 0); [lia|].
    unfold zero_vector. destruct (Z.ltb_spec (N_ (this s)) 0); [lia|].
    unfold tail, size. rewrite Hinv.
    destruct (Z.ltb_spec (N_ (this s) - d) 0); [lia|].
    destruct (Z.ltb_spec (N_ (this s)) (N_ (this s) - d)); [|lia].
    reflexivity.
Qed.

(** ** Further properties: programs *)

Lemma last_set_query (c : call) (cs : list call) (x : VectorXd) :
  is_query c = true -> last_set (c :: cs) x = last_set cs x.
Proof. destruct c; intros Hq; try discriminate Hq; reflexivity. Qed.

(** X13.  After any sequence of calls that runs to its end, the table and the
    order are those it started with, the stored coefficients are the argument
    of the last [setCoefficients] in the sequence (the initial ones when
    there is none), every call has produced a value, and the length
    invariant still holds. *)
Theorem run_calls_last_setCoefficients (cs : list call) :
  forall (s : State) (vs : list value) (s' : State),
    run_calls cs s = Ok (vs, s') ->
    base_coefficients_ s' = base_coefficients_ s
    /\ N_ (this s') = N_ (this s)
    /\ coefficients_ (this s') = last_set cs (coefficients_ (this s))
    /\ length vs = length cs
    /\ (invariant (this s) -> invariant (this s')).
Proof.
  induction cs as [|c cs IH]; intros s vs s' Hrun.
  - inversion Hrun. repeat split. intros H; exact H.
  - cbn [run_calls] in Hrun. unfold bind in Hrun.
    destruct (exec c s) as [[v s1]|] eqn:Hc; [|discriminate Hrun].
    destruct (run_calls cs s1) as [[vs1 s2]|] eqn:Hcs; [|discriminate Hrun].
    inversion Hrun; subst vs s'. clear Hrun.
    destruct (IH _ _ _ Hcs) as (Htable & HN & Hcoeffs & Hlen & Hinv).
    destruct (is_query c) eqn:Hq.
    + apply (read_only_query c Hq) in Hc. subst s1.
      rewrite last_set_query by assumption.
      repeat split; try assumption. simpl. congruence.
    + destruct c; try discriminate Hq. cbn [exec] in Hc.
      unfold returning, bind in Hc.
      destruct (setCoefficients coeffs s) as [[u s0]|] eqn:Hset;
        [|discriminate Hc].
      apply setCoefficients_returns in Hset. destruct Hset as [Hsize ->].
      inversion Hc; subst v s1. clear Hc.
      cbn [this base_coefficients_ N_ coefficients_ last_set] in *.
      repeat split; try assumption.
      * simpl. congruence.
      * intros _. apply Hinv. unfold invariant. cbn [coefficients_ N_].
        congruence.
Qed.


(** ** Further properties: the recurrence itself *)




Lemma block_row_entries (B : MatrixXd) (r : Z) (b : nat -> R) (lo len : nat) :
  (forall j, (lo <= j < lo + len)%nat -> entry B r (Z.of_nat j) = Some (b j)) ->
  block_row B r (Z.of_nat lo) (Z.of_nat len) = Some (map b (seq lo len)).
Proof.
  intros Hb. unfold block_row.
  destruct (Z.ltb_spec (Z.of_nat len) 0); [lia|].
  rewrite Nat2Z.id, Zseq_of_nat.
  rewrite (traverse_map _ (fun z => b (Z.to_nat z))).
  - rewrite map_map. f_equal. apply map_ext. intros j.
    rewrite Nat2Z.id. reflexivity.
  - intros z Hz. apply in_map_iff in Hz. destruct Hz as (j & <- & Hj).
    apply in_seq in Hj. rewrite Nat2Z.id. apply Hb. lia.
Qed.

(** X15.  Whatever the table holds, the scalar [evaluate(t, d)] with
    0 <= d < N computes, by its descending recurrence, the sum over j from d
    to N-1 of B[d][j] * coefficients[j] * t^(j-d), provided row d of the
    table has the N entries it copies; the entries left of the diagonal are
    copied but not used. *)
Theorem evaluate_recurrence_any_table (s : State) (t : R) (d : nat)
    (b : nat -> R) :
  invariant (this s) -> Z.of_nat d < N_ (this s) ->
  (forall j : nat,
      Z.of_nat j < N_ (this s) ->
      entry (base_coefficients_ s) (Z.of_nat d) (Z.of_nat j) = Some (b j)) ->
  evaluate t (Z.of_nat d) s
  = Ok (sigma d (length (coefficients_ (this s)) - d)
              (fun j => b j * nth j (coefficients_ (this s)) 0 * t ^ (j - d))%R,
        s).
Proof.
  unfold invariant, size. intros Hinv Hd Hb.
  set (c := coefficients_ (this s)) in *.
  rewrite evaluate_unfold.
  destruct (Z.geb_spec (Z.of_nat d) (N_ (this s))); [lia|].
  unfold evaluate_one. fold c. rewrite <- Hinv.
  assert (Hrow := @block_row_entries (base_coefficients_ s) (Z.of_nat d) b
                    0 (length c) ltac:(intros; apply Hb; lia)).
  change (Z.of_nat 0) with 0 in Hrow. rewrite Hrow.
  destruct (length c) as [|m] eqn:Hlen; [lia|].
  replace (Z.of_nat (S m) - 1) with (Z.of_nat m) by lia.
  rewrite !coeff_of_nat, nth_error_map, nth_error_seq.
  destruct (Nat.ltb_spec m (S m)) as [_|]; [|lia]. cbn [option_map Nat.add].
  rewrite (@nth_error_nth_default c m) by lia.
  replace (Z.to_nat (Z.of_nat m - Z.of_nat d)) with (m - d)%nat by lia.
  replace (Z.of_nat m - 1) with (Z.of_nat (d + (m - d)) - 1) by lia.
  rewrite (@horner_sigma _ c b (fun k => nth k c 0%R)).
  - do 2 f_equal.
    replace (S m - d)%nat with (S (m - d)) by lia.
    rewrite sigma_last.
    replace (d + (m - d))%nat with m by lia. ring.
  - intros k Hk. split.
    + rewrite nth_error_map, nth_error_seq.
      destruct (Nat.ltb_spec k (S m)) as [_|]; [|lia]. reflexivity.
    + apply nth_error_nth_default. lia.
Qed.

Lemma update_outside (v : VectorXd) (x : R) :
  forall i : nat, (length v <= i)%nat -> update v i x = None.
Proof.
  induction v as [|y v IH]; intros i Hi; [reflexivity|].
  destruct i as [|i]; [simpl in Hi; lia|].
  cbn [update]. rewrite IH by (simpl in Hi; lia). reflexivity.
Qed.

Lemma update_some (v : VectorXd) :
  forall (i : nat) (x : R) (v' : VectorXd),
    update v i x = Some v' ->
    (i < length v)%nat /\ length v' = length v
    /\ nth_error v' i = Some x
    /\ (forall k, k <> i -> nth_error v' k = nth_error v k).
Proof.
  intros i x v' Hup.
  destruct (Nat.lt_ge_cases i (length v)) as [Hlt|Hge].
  - destruct (@update_spec v i x Hlt) as (w & Hw & Hrest).
    rewrite Hup in Hw. inversion Hw; subst w.
    split; [assumption|exact Hrest].
  - rewrite update_outside in Hup by assumption. discriminate Hup.
Qed.

(** When the outer loop returns, each slot it ran over holds what the body
    computed for that derivative, and the earlier slots are untouched. *)
Lemma evaluate_loop_some (B : MatrixXd) (p : Polynomial) (t : R) (n : nat) :
  forall (i : nat) (result out : VectorXd),
    evaluate_loop B p t n (Z.of_nat i) result = Some out ->
    length out = length result
    /\ (forall k, (i <= k < i + n)%nat ->
          exists x, evaluate_one B p t (Z.of_nat k) = Some x
                    /\ nth_error out k = Some x)
    /\ (forall k, (k < i)%nat -> nth_error out k = nth_error result k).
Proof.
  induction n as [|n IH]; intros i result out Hrun.
  - inversion Hrun; subst out.
    split; [reflexivity|split; [intros; lia|reflexivity]].
  - cbn [evaluate_loop] in Hrun.
    destruct (evaluate_one B p t (Z.of_nat i)) as [acc|] eqn:Hone;
      [|discriminate Hrun].
    unfold set_coeff in Hrun.
    destruct (Z.ltb_spec (Z.of_nat i) 0); [lia|].
    rewrite Nat2Z.id in Hrun.
    destruct (update result i acc) as [r'|] eqn:Hup; [|discriminate Hrun].
    apply update_some in Hup. destruct Hup as (_ & Hlen & Hnth & Hother).
    replace (Z.of_nat i + 1) with (Z.of_nat (S i)) in Hrun by lia.
    destruct (IH _ _ _ Hrun) as (Hlen' & Hin & Hbefore).
    split; [congruence|split].
    + intros k Hk. destruct (Nat.eq_dec k i) as [->|Hne].
      * exists acc. split; [assumption|]. rewrite Hbefore by lia. assumption.
      * apply Hin. lia.
    + intros k Hk. rewrite Hbefore by lia. apply Hother. lia.
Qed.

(** X16.  The two forms of [evaluate] run the same recurrence whatever the
    state: when the vector form returns on a result of M <= N slots, it
    returns in the same state, keeps the size, and every slot i holds exactly
    what the scalar [evaluate(t, i)] returns; and when every scalar
    [evaluate(t, i)] with i < M returns, the vector form returns as well. *)
Theorem evaluate_forms_agree_in_every_state (s : State) (t : R)
    (result : VectorXd) :
  size result <= N_ (this s) ->
  (forall (out : VectorXd) (s' : State),
      evaluate_vector t result s = Ok (out, s') ->
      s' = s /\ length out = length result
      /\ forall i : nat,
           (i < length result)%nat ->
           evaluate t (Z.of_nat i) s = Ok (nth i out 0%R, s))
  /\ ((forall i : nat,
         (i < length result)%nat ->
         exists x, evaluate t (Z.of_nat i) s = Ok (x, s)) ->
      exists out, evaluate_vector t result s = Ok (out, s)).
Proof.
  intros HM. unfold size in HM. split.
  - intros out s' Hrun. unfold evaluate_vector in Hrun. run_monad.
    unfold bind, ret, abort, eigen, CHECK, get_this, get_base_coefficients
      in Hrun.
    destruct (Z.leb_spec (size result) (N_ (this s))); [|discriminate Hrun].
    unfold size in Hrun. rewrite Nat2Z.id in Hrun.
    destruct (evaluate_loop (base_coefficients_ s) (this s) t (length result)
                            0 result) as [o|] eqn:Hloop; [|discriminate Hrun].
    inversion Hrun; subst o s'. clear Hrun.
    change 0 with (Z.of_nat 0) in Hloop.
    apply evaluate_loop_some in Hloop. destruct Hloop as (Hlen & Hin & _).
    split; [reflexivity|split; [assumption|]].
    intros i Hi. destruct (Hin i ltac:(lia)) as (x & Hone & Hnth).
    rewrite evaluate_unfold.
    destruct (Z.geb_spec (Z.of_nat i) (N_ (this s))); [lia|].
    rewrite Hone, (nth_of_nth_error _ _ Hnth). reflexivity.
  - intros Hall.
    destruct (@evaluate_loop_spec (base_coefficients_ s) (this s) t
                (fun k => match evaluate_one (base_coefficients_ s) (this s) t
                                             (Z.of_nat k) with
                          | Some x => x
                          | None => 0%R
                          end)
                (length result) 0 result ltac:(lia)) as (out & Hrun & _).
    { intros k Hk. destruct (Hall k ltac:(lia)) as (x & Hx).
      rewrite evaluate_unfold in Hx.
      destruct (Z.geb_spec (Z.of_nat k) (N_ (this s))); [lia|].
      destruct (evaluate_one _ _ _ _); [reflexivity|discriminate Hx]. }
    exists out. unfold evaluate_vector. run_monad.
    destruct (Z.leb_spec (size result) (N_ (this s))); [|unfold size in *; lia].
    unfold size. rewrite Nat2Z.id.
    change 0 with (Z.of_nat 0). rewrite Hrun. reflexivity.
Qed.


(** ** The extremum search against the specification's candidate set *)

(** The roots the search keeps are the admissible ones of the specification,
    in the order the solver reported them. *)
Lemma filter_admissible_real_parts (t_1 t_2 : R) (roots : VectorXcd) :
  admissible_real_parts t_1 t_2 roots
    (map real (filter (admissible t_1 t_2) roots)).
Proof.
  induction roots as [|[re im] roots IH]; [constructor|].
  cbn [filter]. destruct (admissible t_1 t_2 (re, im)) eqn:Ha.
  - unfold admissible in Ha. cbn [real imag fst snd] in Ha.
    apply andb_prop in Ha. destruct Ha as [Ha Hhi].
    apply andb_prop in Ha. destruct Ha as [Him Hlo].
    apply Rleb_true in Him. apply Rleb_true in Hlo. apply Rleb_true in Hhi.
    cbn [map]. change (real (re, im)) with re.
    apply root_admitted; [assumption|lra|assumption].
  - apply root_discarded; [|assumption].
    intros [Him [Hlo Hhi]].
    assert (Htrue : admissible t_1 t_2 (re, im) = true).
    { unfold admissible. cbn [real imag fst snd].
      rewrite (proj2 (Rleb_true _ _) Him), (proj2 (Rleb_true _ _) Hlo),
        (proj2 (Rleb_true _ _) Hhi). reflexivity. }
    congruence.
Qed.

Lemma admissible_real_parts_in_interval (t_1 t_2 : R) (roots : VectorXcd)
    (ts : list R) :
  admissible_real_parts t_1 t_2 roots ts ->
  forall x, In x ts -> (t_1 <= x <= t_2)%R.
Proof.
  induction 1 as [|re im roots ts Him Hre Hrest IH|re im roots ts Hno Hrest IH];
    intros x Hx.
  - destruct Hx.
  - destruct Hx as [<-|Hx]; [assumption|apply IH; assumption].
  - apply IH. assumption.
Qed.

(** C3.  For a polynomial of a supported order N, an interval with
    t1 <= t2 and an order with 0 <= order < N, [findMinMax] succeeds.  The
    roots it uses are those the solver reports for the coefficients of the
    next-higher derivative, which are what [getCoefficients(order + 1)]
    returns and whose polynomial is the derivative of the order-th
    derivative.  The candidates are t1, t2 and, in the solver's order, the
    real parts of the roots whose imaginary part is within the tolerance and
    whose real part lies in [t1, t2].  min and max are the smallest and
    largest values of the order-th derivative over the candidates, and tMin,
    tMax are candidate times where they are taken, the first such candidate
    in each case.  On the cubic t^3 over [-1, 1] it returns min = -1 at
    t = -1 and max = 1 at t = 1, whatever the root solver reports. *)
Theorem findMinMax_extrema :
  (forall (s : State) (t_1 t_2 : R) (order : Z),
      initialised s -> invariant (this s) -> supported (this s) ->
      (t_1 <= t_2)%R -> 0 <= order < N_ (this s) ->
      let c := coefficients_ (this s) in
      let higher := derivative_coefficients c (Z.to_nat (order + 1)) in
      let f := derivative_value c (Z.to_nat order) in
      exists e ts,
        getCoefficients (order + 1) s = Ok (higher, s)
        /\ (forall t, derivable_pt_lim f t (derivative_value higher 0 t))
        /\ findMinMax t_1 t_2 order s = Ok (Some e, s)
        /\ admissible_real_parts t_1 t_2 (findRootsJenkinsTraub higher) ts
        /\ let cands := t_1 :: t_2 :: ts in
           min e = f (t_min e) /\ max e = f (t_max e)
           /\ In (t_min e) cands /\ In (t_max e) cands
           /\ (forall x, In x cands -> (min e <= f x <= max e)%R)
           /\ first_min f cands (t_min e) /\ first_max f cands (t_max e))
  /\ (forall s : State,
        initialised s -> this s = cubic ->
        findMinMax (-1) 1 0 s = Ok (Some (mkMinMax (-1) 1 (-1) 1), s)).
Proof.
  assert (General : forall (s : State) (t_1 t_2 : R) (order : Z),
      initialised s -> invariant (this s) -> supported (this s) ->
      (t_1 <= t_2)%R -> 0 <= order < N_ (this s) ->
      exists e ts,
        getCoefficients (order + 1) s
        = Ok (derivative_coefficients (coefficients_ (this s))
                                      (Z.to_nat (order + 1)), s)
        /\ (forall t,
              derivable_pt_lim
                (derivative_value (coefficients_ (this s)) (Z.to_nat order)) t
                (derivative_value
                   (derivative_coefficients (coefficients_ (this s))
                                            (Z.to_nat (order + 1))) 0 t))
        /\ findMinMax t_1 t_2 order s = Ok (Some e, s)
        /\ admissible_real_parts t_1 t_2
             (findRootsJenkinsTraub
                (derivative_coefficients (coefficients_ (this s))
                                         (Z.to_nat (order + 1)))) ts
        /\ min e = derivative_value (coefficients_ (this s)) (Z.to_nat order)
                                    (t_min e)
        /\ max e = derivative_value (coefficients_ (this s)) (Z.to_nat order)
                                    (t_max e)
        /\ In (t_min e) (t_1 :: t_2 :: ts) /\ In (t_max e) (t_1 :: t_2 :: ts)
        /\ (forall x, In x (t_1 :: t_2 :: ts) ->
              (min e
               <= derivative_value (coefficients_ (this s)) (Z.to_nat order) x
               <= max e)%R)
        /\ first_min (derivative_value (coefficients_ (this s)) (Z.to_nat order))
                     (t_1 :: t_2 :: ts) (t_min e)
        /\ first_max (derivative_value (coefficients_ (this s)) (Z.to_nat order))
                     (t_1 :: t_2 :: ts) (t_max e)).
  { intros s t_1 t_2 order Hinit Hinv Hsup Ht Horder.
    assert (Hlen : Z.of_nat (length (coefficients_ (this s))) = N_ (this s))
      by exact Hinv.
    destruct (@findMinMax_run s t_1 t_2 order Hinit Hinv Hsup Ht Horder)
      as (derivative & e & Hget & Hrun & Hmin & Hfmin & Hmax & Hfmax).
    assert (Hhigher := @getCoefficients_run s (Z.to_nat (order + 1))
                         Hinit Hinv Hsup ltac:(lia)).
    rewrite Z2Nat.id in Hhigher by lia.
    rewrite Hhigher in Hget. inversion Hget as [Hderivative]. clear Hget.
    subst derivative.
    exists e,
      (map real
           (filter (admissible t_1 t_2)
                   (findRootsJenkinsTraub
                      (derivative_coefficients (coefficients_ (this s))
                                               (Z.to_nat (order + 1)))))).
    assert (Heq : forall x,
               derivative_at (this s) order x
               = derivative_value (coefficients_ (this s)) (Z.to_nat order) x)
      by (intros x; apply derivative_at_below; lia).
    apply (first_min_ext _ Heq) in Hfmin.
    apply (first_max_ext _ Heq) in Hfmax.
    rewrite Heq in Hmin, Hmax. unfold candidates in Hfmin, Hfmax.
    destruct (first_min_least Hfmin) as [Hin_min Hleast].
    destruct (first_max_greatest Hfmax) as [Hin_max Hmost].
    split; [exact Hhigher|split; [|split; [exact Hrun|split]]].
    - intros t.
      rewrite derivative_value_of_derivative_coefficients by lia.
      replace (Z.to_nat (order + 1) + 0)%nat with (S (Z.to_nat order)) by lia.
      apply derivative_value_derivative.
    - apply filter_admissible_real_parts.
    - repeat (split; [assumption|]).
      split; [|split; assumption].
      intros x Hx. rewrite Hmin, Hmax.
      split; [apply Hleast|apply Hmost]; assumption. }
  split.
  - intros s t_1 t_2 order Hinit Hinv Hsup Ht Horder. cbn zeta.
    apply General; assumption.
  - intros s Hinit Hcubic.
    destruct (General s (-1)%R 1%R 0)
      as (e & ts & _ & _ & Hrun & Hadm & Hmin & Hmax & Hin_min & Hin_max
          & Hall & _ & _).
    + assumption.
    + rewrite Hcubic. reflexivity.
    + rewrite Hcubic. unfold supported, kMaxN. simpl. lia.
    + lra.
    + rewrite Hcubic. simpl. lia.
    + rewrite Hrun. rewrite Hcubic in Hmin, Hmax, Hall.
      change (Z.to_nat 0) with 0%nat in Hmin, Hmax, Hall.
      assert (Hrange : forall x, In x ((-1)%R :: 1%R :: ts) -> (-1 <= x <= 1)%R).
      { intros x [<-|[<-|Hx]]; [lra|lra|].
        exact (admissible_real_parts_in_interval Hadm x Hx). }
      assert (Hrange_min := Hrange _ Hin_min).
      assert (Hrange_max := Hrange _ Hin_max).
      assert (Hlow := Hall (-1)%R ltac:(left; reflexivity)).
      assert (Hhigh := Hall 1%R ltac:(right; left; reflexivity)).
      rewrite cubic_value in Hmin, Hmax, Hlow, Hhigh.
      assert (Htmin : t_min e = (-1)%R)
        by (apply cube_at_most_minus_one; lra).
      assert (Htmax : t_max e = 1%R)
        by (apply cube_at_least_one; lra).
      destruct e as [tmin tmax vmin vmax]. cbn [t_min t_max min max] in *.
      subst tmin tmax.
      replace vmin with (-1)%R by lra. replace vmax with 1%R by lra.
      reflexivity.
Qed.

End PolynomialClass.

(** ** The model run on small inputs *)

Local Open Scope Z_scope.

(** The first derivative of 1 + 2 t + 3 t^2 at t = 2 is 2 + 6 * 2. *)
Example evaluate_quadratic_first_derivative :
  evaluate 2 1 quadratic_state = Ok (14%R, quadratic_state).
Proof.
  rewrite evaluate_unfold. cbn [N_ this quadratic_state quadratic].
  destruct (Z.geb_spec 1 3); [lia|].
  change 1 with (Z.of_nat 1).
  assert (Hone := @evaluate_one_value quadratic 2 1).
  cbn [base_coefficients_ quadratic_state]. 
  rewrite Hone; [|reflexivity|unfold supported, kMaxN; simpl; lia|simpl; lia].
  do 2 f_equal. unfold derivative_value. simpl. field.
Qed.

(** The coefficients of that derivative, padded with a zero. *)
Example getCoefficients_quadratic_first_derivative :
  getCoefficients 1 quadratic_state = Ok ([2; 6; 0]%R, quadratic_state).
Proof.
  change 1 with (Z.of_nat 1).
  rewrite getCoefficients_vector;
    [|reflexivity|reflexivity|unfold supported, kMaxN; simpl; lia|lia|simpl; lia].
  simpl. repeat f_equal; lra.
Qed.

(** Row 1 of the table for N = 4, scaled by the powers of t = 2. *)
Example baseCoeffsWithTime_row_one :
  baseCoeffsWithTime 4 1 2 cubic_state = Ok ([0; 1; 4; 12]%R, cubic_state).
Proof.
  destruct (@baseCoeffsWithTime_into_spec cubic_state 4 1 2 (repeat 0%R 4)
              ltac:(reflexivity) ltac:(unfold kMaxN; simpl; lia) ltac:(lia))
    as (v & Hrun & Hlen & Hdiag & Hlow & Hhigh).
  assert (Heps : Rltb (Rabs 2) epsilon = false).
  { apply Rltb_false. unfold epsilon. rewrite Rabs_pos_eq by lra.
    assert (/ 2 ^ 52 <= 1)%R; [|lra].
    rewrite <- Rinv_1. apply Rinv_le_contravar; [lra|].
    apply pow_R1_Rle. lra. }
  assert (H0 := Hlow 0%nat ltac:(lia)).
  assert (H2 := Hhigh 2%nat ltac:(lia)).
  assert (H3 := Hhigh 3%nat ltac:(lia)).
  rewrite Heps in H2, H3.
  simpl Z.of_nat in Hrun.
  unfold baseCoeffsWithTime, bind, eigen, zero_vector.
  change (4 <? 0) with false. change (Z.to_nat 4) with 4%nat.
  cbn iota. unfold ret at 1.
  rewrite Hrun. do 2 f_equal.
  destruct v as [|v0 [|v1 [|v2 [|v3 [|]]]]]; try discriminate Hlen.
  simpl in H0, Hdiag, H2, H3.
  inversion H0. inversion Hdiag. inversion H2. inversion H3.
  repeat f_equal; lra.
Qed.

(** ** The statements at concrete inputs *)

Lemma quadratic_state_well_formed :
  initialised quadratic_state /\ invariant (this quadratic_state)
  /\ supported (this quadratic_state).
Proof.
  split; [reflexivity|split; [reflexivity|]].
  unfold supported, kMaxN. simpl. lia.
Defined.

Lemma cubic_state_well_formed :
  initialised cubic_state /\ invariant (this cubic_state)
  /\ supported (this cubic_state).
Proof.
  split; [reflexivity|split; [reflexivity|]].
  unfold supported, kMaxN. simpl. lia.
Defined.

Lemma evaluate_derivative_value_witness :
  Z.of_nat 1 < N_ (this quadratic_state)
  /\ evaluate 2 (Z.of_nat 1) quadratic_state
     = Ok (derivative_value (coefficients_ (this quadratic_state)) 1 2,
           quadratic_state).
Proof.
  split; [simpl; lia|].
  apply evaluate_derivative_value;
    [apply quadratic_state_well_formed ..|simpl; lia].
Defined.

Lemma evaluate_beyond_order_witness :
  7 >= N_ (this cubic_state)
  /\ evaluate 2 7 cubic_state = Ok (0%R, cubic_state).
Proof.
  split; [simpl; lia|].
  apply evaluate_beyond_order. simpl. lia.
Defined.

Lemma getCoefficients_derivative_witness :
  getCoefficients 0 quadratic_state
  = Ok (coefficients_ (this quadratic_state), quadratic_state)
  /\ exists v,
       getCoefficients (Z.of_nat 1) quadratic_state = Ok (v, quadratic_state)
       /\ size v = N_ (this quadratic_state).
Proof.
  destruct (getCoefficients_derivative
              (proj1 quadratic_state_well_formed)
              (proj1 (proj2 quadratic_state_well_formed))
              (proj2 (proj2 quadratic_state_well_formed)))
    as (Hzero & _ & Hd & _).
  split; [exact Hzero|].
  destruct (Hd 1%nat ltac:(lia) ltac:(simpl; lia)) as (v & Hrun & Hsize & _).
  exists v. split; assumption.
Defined.

Lemma findMinMax_extrema_witness :
  (initialised cubic_state /\ this cubic_state = cubic)
  /\ findMinMax double_root_at_zero example_tolerance (-1) 1 0 cubic_state
     = Ok (Some (mkMinMax (-1) 1 (-1) 1), cubic_state).
Proof.
  split; [split; reflexivity|].
  apply (proj2 (findMinMax_extrema double_root_at_zero example_tolerance));
    reflexivity.
Defined.

Lemma basis_table_falling_factorial_witness :
  (Z.of_nat 2 < kMaxN /\ Z.of_nat 5 < kMaxN)
  /\ entry initial_base_coefficients (Z.of_nat 2) (Z.of_nat 5)
     = Some (INR (fact 5) / INR (fact (5 - 2)))%R
  /\ base_coefficients_
       (mkState initial_base_coefficients (mkPolynomial 4 [1; 1; 1; 1]%R))
     = base_coefficients_ cubic_state.
Proof.
  destruct (basis_table_falling_factorial double_root_at_zero example_tolerance)
    as (_ & _ & _ & Hentry & Hframe).
  split; [unfold kMaxN; simpl; lia|split].
  - apply (Hentry 2%nat 5%nat); unfold kMaxN; simpl; lia.
  - apply (Hframe (call_setCoefficients [1; 1; 1; 1]%R) cubic_state value_void).
    reflexivity.
Defined.

Lemma evaluate_vector_agrees_with_scalar_witness :
  size [0; 0]%R <= N_ (this quadratic_state)
  /\ exists out,
       evaluate_vector 2 [0; 0]%R quadratic_state = Ok (out, quadratic_state)
       /\ size out = size [0; 0]%R
       /\ forall i : nat,
            Z.of_nat i < size [0; 0]%R ->
            exists x,
              evaluate 2 (Z.of_nat i) quadratic_state = Ok (x, quadratic_state)
              /\ nth_error out i = Some x.
Proof.
  split; [unfold size; simpl; lia|].
  apply (proj1 (evaluate_vector_agrees_with_scalar quadratic_state 2 [0; 0]%R));
    [unfold size; simpl; lia|apply quadratic_state_well_formed ..].
Defined.

Lemma findMinMax_failure_witness :
  ((0 <= 1)%R /\ 0 <= 1)
  /\ (exists e,
        findMinMax double_root_at_zero example_tolerance 0 1 1 cubic_state
        = Ok (Some e, cubic_state))
  /\ (exists s',
        findMinMax double_root_at_zero example_tolerance 1 0 1 cubic_state
        = Ok (None, s')).
Proof.
  split; [split; [lra|lia]|split].
  - apply (proj2 (proj2 (proj2
             (findMinMax_failure double_root_at_zero example_tolerance
                                 cubic_state 0 1 1))));
      [lra|lia|apply cubic_state_well_formed ..].
  - apply (proj1 (findMinMax_failure double_root_at_zero example_tolerance
                                     cubic_state 1 0 1)).
    left. lra.
Defined.

Lemma baseCoeffsWithTime_row_witness :
  (Z.of_nat 4 <= kMaxN /\ (1 < 4)%nat)
  /\ exists v,
       baseCoeffsWithTime (Z.of_nat 4) (Z.of_nat 1) 2 cubic_state
       = Ok (v, cubic_state)
       /\ length v = 4%nat.
Proof.
  split; [split; [unfold kMaxN; simpl; lia|lia]|].
  destruct (@baseCoeffsWithTime_row cubic_state 4 1 2
              (proj1 cubic_state_well_formed)
              ltac:(unfold kMaxN; simpl; lia) ltac:(lia))
    as (v & Hrun & Hlen & _).
  exists v. split; assumption.
Defined.

Lemma coefficient_length_invariant_witness :
  (0 <= 4 /\ size [1; 1; 1; 1]%R = N_ (this cubic_state))
  /\ Polynomial_N 4 = Ok (mkPolynomial 4 (repeat 0%R (Z.to_nat 4)))
  /\ setCoefficients [1; 1; 1; 1]%R cubic_state
     = Ok (tt, mkState (base_coefficients_ cubic_state)
                       (mkPolynomial (N_ (this cubic_state)) [1; 1; 1; 1]%R))
  /\ invariant (mkPolynomial (N_ (this cubic_state)) [1; 1; 1; 1]%R).
Proof.
  destruct (coefficient_length_invariant double_root_at_zero example_tolerance)
    as (Hnew & _ & _ & _ & Hset & _).
  split; [split; [lia|reflexivity]|split].
  - apply (Hnew 4). lia.
  - apply (Hset cubic_state [1; 1; 1; 1]%R). reflexivity.
Defined.

Lemma queries_leave_polynomial_unchanged_witness :
  (is_query (call_evaluate 2 7) = true
   /\ exec double_root_at_zero example_tolerance (call_evaluate 2 7) cubic_state
      = Ok (value_double 0, cubic_state))
  /\ N_ (this cubic_state) = N_ (this cubic_state)
  /\ coefficients_ (this cubic_state) = coefficients_ (this cubic_state).
Proof.
  split; [split; reflexivity|].
  apply (proj1 (queries_leave_polynomial_unchanged
                  double_root_at_zero example_tolerance)
               (call_evaluate 2 7) cubic_state (value_double 0) cubic_state);
    reflexivity.
Defined.

(** ** The further properties at concrete inputs *)

Lemma evaluate_at_zero_witness :
  Z.of_nat 1 < N_ (this quadratic_state)
  /\ evaluate 0 (Z.of_nat 1) quadratic_state
     = Ok ((nth 1 (coefficients_ (this quadratic_state)) 0 * INR (fact 1))%R,
           quadratic_state).
Proof.
  split; [simpl; lia|].
  apply evaluate_at_zero; [apply quadratic_state_well_formed ..|simpl; lia].
Defined.

Lemma evaluate_top_derivative_constant_witness :
  Z.of_nat 2 + 1 = N_ (this quadratic_state)
  /\ evaluate 5 (Z.of_nat 2) quadratic_state
     = Ok ((nth 2 (coefficients_ (this quadratic_state)) 0 * INR (fact 2))%R,
           quadratic_state).
Proof.
  split; [reflexivity|].
  apply evaluate_top_derivative_constant;
    [apply quadratic_state_well_formed ..|reflexivity].
Defined.

Lemma evaluate_successive_derivatives_witness :
  exists f g : R -> R,
    (forall t, evaluate t (Z.of_nat 0) quadratic_state = Ok (f t, quadratic_state))
    /\ (forall t, evaluate t (Z.of_nat 0 + 1) quadratic_state
                  = Ok (g t, quadratic_state))
    /\ (forall t, derivable_pt_lim f t (g t)).
Proof.
  apply evaluate_successive_derivatives; apply quadratic_state_well_formed.
Defined.




Lemma coefficients_round_trip_witness :
  size [1; 1; 1; 1]%R = N_ (this cubic_state)
  /\ (setCoefficients [1; 1; 1; 1]%R ;; getCoefficients 0)%monad cubic_state
     = Ok ([1; 1; 1; 1]%R,
           mkState (base_coefficients_ cubic_state)
                   (mkPolynomial (N_ (this cubic_state)) [1; 1; 1; 1]%R)).
Proof.
  split; [reflexivity|].
  apply (proj1 coefficients_round_trip). reflexivity.
Defined.

Lemma zero_polynomial_witness :
  Z.of_nat 3 <= kMaxN
  /\ exists p,
       Polynomial_N (Z.of_nat 3) = Ok p
       /\ (forall (t : R) (d : Z),
             0 <= d ->
             evaluate t d (mkState initial_base_coefficients p)
             = Ok (0%R, mkState initial_base_coefficients p))
       /\ (forall d : nat,
             (d <= 3)%nat ->
             getCoefficients (Z.of_nat d) (mkState initial_base_coefficients p)
             = Ok (repeat 0%R 3, mkState initial_base_coefficients p)).
Proof.
  split; [unfold kMaxN; simpl; lia|].
  apply zero_polynomial. unfold kMaxN. simpl. lia.
Defined.

Lemma order_above_kMaxN_has_no_result_witness :
  (initialised order_thirteen_state /\ invariant (this order_thirteen_state)
   /\ kMaxN < N_ (this order_thirteen_state))
  /\ evaluate 2 0 order_thirteen_state = Fatal
  /\ getCoefficients 1 order_thirteen_state = Fatal
  /\ getCoefficients 0 order_thirteen_state
     = Ok (coefficients_ (this order_thirteen_state), order_thirteen_state).
Proof.
  assert (H : initialised order_thirteen_state
              /\ invariant (this order_thirteen_state)
              /\ kMaxN < N_ (this order_thirteen_state)).
  { split; [reflexivity|split; [reflexivity|]]. unfold kMaxN. simpl. lia. }
  split; [exact H|].
  destruct (@order_above_kMaxN_has_no_result order_thirteen_state
              (proj1 H) (proj1 (proj2 H)) (proj2 (proj2 H)))
    as (Heval & _ & Hget & _ & _ & Hzero).
  split; [|split].
  - apply Heval. simpl. lia.
  - apply Hget. simpl. lia.
  - exact Hzero.
Defined.

Lemma baseCoeffsWithTime_returns_iff_witness :
  (initialised cubic_state /\ 4 <= kMaxN /\ 0 <= 1 < 4)
  /\ exists v s', baseCoeffsWithTime 4 1 2 cubic_state = Ok (v, s').
Proof.
  assert (H : initialised cubic_state /\ 4 <= kMaxN /\ 0 <= 1 < 4).
  { split; [reflexivity|]. unfold kMaxN. lia. }
  split; [exact H|].
  apply (proj2 (@baseCoeffsWithTime_returns_iff cubic_state 4 1 2
                  (proj1 H) (proj1 (proj2 H)))).
  exact (proj2 (proj2 H)).
Defined.

Lemma negative_derivative_has_no_result_witness :
  (invariant (this cubic_state) /\ -1 < 0)
  /\ (forall t : R, evaluate t (-1) cubic_state = Fatal)
  /\ getCoefficients (-1) cubic_state = Fatal.
Proof.
  split; [split; [reflexivity|lia]|].
  apply negative_derivative_has_no_result; [reflexivity|lia].
Defined.

Lemma run_calls_last_setCoefficients_witness :
  run_calls double_root_at_zero example_tolerance
    [call_N; call_setCoefficients [1; 1; 1; 1]%R; call_evaluate 2 7]
    cubic_state
  = Ok ([value_int 4; value_void; value_double 0],
        mkState initial_base_coefficients (mkPolynomial 4 [1; 1; 1; 1]%R))
  /\ coefficients_ (mkPolynomial 4 [1; 1; 1; 1]%R)
     = last_set [call_N; call_setCoefficients [1; 1; 1; 1]%R; call_evaluate 2 7]
                (coefficients_ (this cubic_state)).
Proof.
  assert (H : run_calls double_root_at_zero example_tolerance
                [call_N; call_setCoefficients [1; 1; 1; 1]%R; call_evaluate 2 7]
                cubic_state
              = Ok ([value_int 4; value_void; value_double 0],
                    mkState initial_base_coefficients
                            (mkPolynomial 4 [1; 1; 1; 1]%R)))
    by reflexivity.
  split; [exact H|].
  exact (proj1 (proj2 (proj2
           (@run_calls_last_setCoefficients double_root_at_zero
              example_tolerance _ _ _ _ H)))).
Defined.


Lemma evaluate_recurrence_any_table_witness :
  (invariant (this cubic_state) /\ Z.of_nat 1 < N_ (this cubic_state))
  /\ evaluate 2 (Z.of_nat 1) cubic_state
     = Ok (sigma 1 (length (coefficients_ (this cubic_state)) - 1)
             (fun j => INR (falling j 1)
                       * nth j (coefficients_ (this cubic_state)) 0
                       * 2 ^ (j - 1))%R,
           cubic_state).
Proof.
  split; [split; [reflexivity|simpl; lia]|].
  apply evaluate_recurrence_any_table; [reflexivity|simpl; lia|].
  intros j Hj. apply entry_initial; unfold kMaxN; simpl in *; lia.
Defined.

Lemma evaluate_forms_agree_in_every_state_witness :
  size [0; 0]%R <= N_ (this quadratic_state)
  /\ (forall (out : VectorXd) (s' : State),
         evaluate_vector 2 [0; 0]%R quadratic_state = Ok (out, s') ->
         s' = quadratic_state /\ length out = length [0; 0]%R
         /\ forall i : nat,
              (i < length [0; 0]%R)%nat ->
              evaluate 2 (Z.of_nat i) quadratic_state
              = Ok (nth i out 0%R, quadratic_state)).
Proof.
  split; [unfold size; simpl; lia|].
  apply (proj1 (@evaluate_forms_agree_in_every_state quadratic_state 2
                  [0; 0]%R ltac:(unfold size; simpl; lia))).
Defined.
